(** * BMP280 / BME280 register decoder: a shallow embedding of [main.cpp]

    The program reads a 26-byte calibration block and an 8-byte measurement
    block through two [const uint8_t *] pointers and applies the fixed-point
    compensation formulas of the Bosch datasheet.

    Conventions of the embedding:
    - a C++ pointer is an address into a flat byte memory; the pointer carries
      no length, exactly as in the source;
    - a fixed-width integer is a [Z] together with the wrap-around of its
      width, written out at every operation that can leave the range; signed
      overflow, which the language leaves undefined, wraps in two's
      complement as well;
    - a [float] is an IEEE 754 binary32 number and a [double] a binary64
      number, both taken from the specification of floating-point arithmetic
      in the standard library ([SpecFloat]), rounding to nearest even;
    - an integer division by zero is the one operation without a result: it
      is modelled by [None]. *)

From Stdlib Require Import ZArith QArith Lia List Bool.
From Stdlib Require Import QArith.Qpower QArith.Qfield QArith.Qabs.
From Stdlib Require Import Strings.Byte.
From Stdlib Require Import Floats.SpecFloat.
Import ListNotations.

Local Open Scope Z_scope.

(** ** Fixed-width integers *)

Module Int.

(** Value of the low [w] bits read as an unsigned number. *)
Definition unsigned (w x : Z) : Z := x mod 2 ^ w.

(** Value of the low [w] bits read as a two's-complement number. *)
Definition signed (w x : Z) : Z :=
  let u := unsigned w x in
  if u <? 2 ^ (w - 1) then u else u - 2 ^ w.

Definition to_uint16 := unsigned 16.
Definition to_uint32 := unsigned 32.
Definition to_int16 := signed 16.
Definition to_int32 := signed 32.
Definition to_int64 := signed 64.

(** [uint32_t] operators used by the byte decoders. *)
Definition shl_u32 (x n : Z) : Z := to_uint32 (Z.shiftl x n).
Definition shr_u32 (x n : Z) : Z := Z.shiftr x n.
Definition or_u32 (x y : Z) : Z := Z.lor x y.

(** [int32_t] operators of the temperature block.  [>>] on a signed
    operand is the arithmetic shift, [Z.shiftr]. *)
Definition add32 (x y : Z) : Z := to_int32 (x + y).
Definition sub32 (x y : Z) : Z := to_int32 (x - y).
Definition mul32 (x y : Z) : Z := to_int32 (x * y).
Definition shl32 (x n : Z) : Z := to_int32 (Z.shiftl x n).
Definition shr32 (x n : Z) : Z := Z.shiftr x n.

(** [int64_t] operators of the pressure block. *)
Definition add64 (x y : Z) : Z := to_int64 (x + y).
Definition sub64 (x y : Z) : Z := to_int64 (x - y).
Definition mul64 (x y : Z) : Z := to_int64 (x * y).
Definition shl64 (x n : Z) : Z := to_int64 (Z.shiftl x n).
Definition shr64 (x n : Z) : Z := Z.shiftr x n.

(** [/] on [int64_t]: truncation toward zero, the quotient wrapped like
    every other result; no result for a zero divisor. *)
Definition div64 (x y : Z) : option Z :=
  if y =? 0 then None else Some (to_int64 (Z.quot x y)).

End Int.

(** ** Memory and pointers *)

Definition memory := Z -> byte.
Definition ptr := Z.

(** [data[i]] for [const uint8_t *data]: the byte at address [data + i],
    as an integer in 0..255. *)
Definition load (m : memory) (data : ptr) (i : Z) : Z :=
  Z.of_N (Byte.to_N (m (data + i))).

(** An array object placed at [base], the rest of the memory unchanged. *)
Definition place (base : ptr) (bytes : list byte) (m : memory) : memory :=
  fun a =>
    if (base <=? a) && (a <? base + Z.of_nat (length bytes))
    then nth (Z.to_nat (a - base)) bytes x00
    else m a.

Definition zero_memory : memory := fun _ => x00.

(** ** The embedded sample data *)

Definition calibration : list byte :=
  [ x36; x6c      (* dig_T1 *)
  ; x05; x68      (* dig_T2 *)
  ; x18; xfc      (* dig_T3 *)
  ; xa1; x8d      (* dig_P1 *)
  ; x93; xd6      (* dig_P2 *)
  ; xd0; x0b      (* dig_P3 *)
  ; xc3; x06      (* dig_P4 *)
  ; x3b; x01      (* dig_P5 *)
  ; xf9; xff      (* dig_P6 *)
  ; x8c; x3c      (* dig_P7 *)
  ; xf8; xc6      (* dig_P8 *)
  ; x70; x17      (* dig_P9 *)
  ; x00           (* reserved *)
  ; x00 ]%byte.   (* dig_H1 on the BME280 *)

Definition measurement : list byte :=
  [ x6c; x07; x00; x7e; x4c; x00; x00; x00 ]%byte.

(** The two static arrays as objects in memory.  The addresses are an
    arbitrary layout; no result below depends on them. *)
Definition calibration_ptr : ptr := 4096.
Definition measurement_ptr : ptr := 4128.

Definition static_memory : memory :=
  place calibration_ptr calibration
    (place measurement_ptr measurement zero_memory).

(** ** Records *)

(** [struct Calibration].  [H2]..[H5] are declared but never assigned by
    the program: their value stays indeterminate, [None]. *)
Record Calibration := mkCalibration {
  T1 : Z;  T2 : Z;  T3 : Z;
  P1 : Z;  P2 : Z;  P3 : Z;  P4 : Z;  P5 : Z;
  P6 : Z;  P7 : Z;  P8 : Z;  P9 : Z;
  H1 : Z;
  H2 : option Z;  H3 : option Z;  H4 : option Z;  H5 : option Z
}.

(** [struct Measurement]: three [float] members. *)
Record Measurement := mkMeasurement {
  pressure : spec_float;
  temp : spec_float;
  humidity : spec_float
}.

(** ** Floating point *)

Module F32.
Definition prec : Z := 24.
Definition emax : Z := 128.
(** Conversion of an integer to [float]. *)
Definition of_Z (x : Z) : spec_float := binary_normalize prec emax x 0 false.
Definition div : spec_float -> spec_float -> spec_float := SFdiv prec emax.
End F32.

Module F64.
Definition prec : Z := 53.
Definition emax : Z := 1024.
(** Conversion of an integer to [double]. *)
Definition of_Z (x : Z) : spec_float := binary_normalize prec emax x 0 false.
Definition div : spec_float -> spec_float -> spec_float := SFdiv prec emax.
(** Conversion of a [double] to [float], as at an assignment to a [float]
    member. *)
Definition to_f32 (x : spec_float) : spec_float :=
  match x with
  | S754_finite s m e =>
      binary_normalize F32.prec F32.emax (cond_Zopp s (Zpos m)) e s
  | _ => x
  end.
End F64.

(** The default member initialisers [= 0.] of [struct Measurement]. *)
Definition Measurement_default : Measurement :=
  mkMeasurement (F64.to_f32 (S754_zero false))
                (F64.to_f32 (S754_zero false))
                (F64.to_f32 (S754_zero false)).

Definition set_temp (r : Measurement) (v : spec_float) : Measurement :=
  mkMeasurement (pressure r) v (humidity r).

Definition set_pressure (r : Measurement) (v : spec_float) : Measurement :=
  mkMeasurement v (temp r) (humidity r).

(** ** Primitive decoders *)

Section Decoders.

Variable m : memory.

Definition decode20bit (data : ptr) : Z :=
  let i :=
    Int.to_int32
      (Int.or_u32
         (Int.or_u32 (Int.shl_u32 (Int.to_uint32 (load m data 0)) 12)
                     (Int.shl_u32 (Int.to_uint32 (load m data 1)) 4))
         (Int.shr_u32 (Int.to_uint32 (load m data 2)) 4)) in
  i.

Definition decodeU16LE (data : ptr) : Z :=
  let result :=
    Int.or_u32 (Int.to_uint32 (load m data 0))
               (Int.shl_u32 (Int.to_uint32 (load m data 1)) 8) in
  Int.to_uint16 result.

Definition decodeS16LE (data : ptr) : Z :=
  let u := decodeU16LE data in
  Int.to_int16 u.

(** ** Calibration parser *)

Definition decodeCalibration (calibration : ptr) : Calibration :=
  {| T1 := decodeU16LE calibration;
     T2 := decodeS16LE (calibration + 2);
     T3 := decodeS16LE (calibration + 4);
     P1 := decodeU16LE (calibration + 6);
     P2 := decodeS16LE (calibration + 8);
     P3 := decodeS16LE (calibration + 10);
     P4 := decodeS16LE (calibration + 12);
     P5 := decodeS16LE (calibration + 14);
     P6 := decodeS16LE (calibration + 16);
     P7 := decodeS16LE (calibration + 18);
     P8 := decodeS16LE (calibration + 20);
     P9 := decodeS16LE (calibration + 22);
     H1 := load m calibration 25;
     H2 := None; H3 := None; H4 := None; H5 := None |}.

End Decoders.

(** ** Compensation engine *)

Section Engine.

Variable m : memory.

(** The block of [decode] under the comment [// Temperature]: it assigns
    [t_fine], declared just before the block, and [result.temp]. *)
Definition decode_Temperature
    (measurement : ptr) (dig : Calibration) (result : Measurement)
  : Z * Measurement :=
  let temp_raw := decode20bit m (measurement + 3) in
  let var1 :=
    Int.shr32
      (Int.mul32
         (Int.sub32 (Int.shr32 temp_raw 3)
                    (Int.shl32 (Int.to_int32 (T1 dig)) 1))
         (Int.to_int32 (T2 dig)))
      11 in
  let var2 :=
    Int.shr32
      (Int.mul32
         (Int.shr32
            (Int.mul32
               (Int.sub32 (Int.shr32 temp_raw 4) (Int.to_int32 (T1 dig)))
               (Int.sub32 (Int.shr32 temp_raw 4) (Int.to_int32 (T1 dig))))
            12)
         (Int.to_int32 (T3 dig)))
      14 in
  let t_fine := Int.add32 var1 var2 in
  let T := Int.shr32 (Int.add32 (Int.mul32 t_fine 5) 128) 8 in
  (t_fine, set_temp result (F32.div (F32.of_Z T) (F32.of_Z 100))).

(** The block of [decode] under the comment [// Pressure]: it reads
    [t_fine] and assigns [result.pressure] when [var1 != 0]. *)
Definition decode_Pressure
    (measurement : ptr) (dig : Calibration) (t_fine : Z)
    (result : Measurement)
  : option Measurement :=
  let adc_P := decode20bit m (measurement + 0) in
  let var1 := Int.sub64 (Int.to_int64 t_fine) 128000 in
  let var2 := Int.mul64 (Int.mul64 var1 var1) (Int.to_int64 (P6 dig)) in
  let var2 :=
    Int.add64 var2 (Int.shl64 (Int.mul64 var1 (Int.to_int64 (P5 dig))) 17) in
  let var2 := Int.add64 var2 (Int.shl64 (Int.to_int64 (P4 dig)) 35) in
  let var1 :=
    Int.add64
      (Int.shr64 (Int.mul64 (Int.mul64 var1 var1) (Int.to_int64 (P3 dig))) 8)
      (Int.shl64 (Int.mul64 var1 (Int.to_int64 (P2 dig))) 12) in
  let var1 :=
    Int.shr64
      (Int.mul64 (Int.add64 (Int.shl64 (Int.to_int64 1) 47) var1)
                 (Int.to_int64 (P1 dig)))
      33 in
  if negb (var1 =? 0) then
    let p := Int.to_int64 (Int.sub32 1048576 adc_P) in
    match Int.div64 (Int.mul64 (Int.sub64 (Int.shl64 p 31) var2) 3125) var1 with
    | None => None
    | Some p =>
        let var1 :=
          Int.shr64
            (Int.mul64 (Int.mul64 (Int.to_int64 (P9 dig)) (Int.shr64 p 13))
                       (Int.shr64 p 13))
            25 in
        let var2 := Int.shr64 (Int.mul64 (Int.to_int64 (P8 dig)) p) 19 in
        let p :=
          Int.add64 (Int.shr64 (Int.add64 (Int.add64 p var1) var2) 8)
                    (Int.shl64 (Int.to_int64 (P7 dig)) 4) in
        Some (set_pressure result
                (F64.to_f32 (F64.div (F64.of_Z p) (F64.of_Z 256))))
    end
  else Some result.

Definition decode (calibration measurement : ptr) : option Measurement :=
  let result := Measurement_default in
  let dig := decodeCalibration m calibration in
  let '(t_fine, result) := decode_Temperature measurement dig result in
  decode_Pressure measurement dig t_fine result.

End Engine.

(** [main]: the decode of the two static arrays. *)
Definition main_measurement : option Measurement :=
  decode static_memory calibration_ptr measurement_ptr.

(** ** The formulas in the words of the specification

    These definitions are written from the text of the specification, with
    the right shift as a flooring division and the wrap-around of a signed
    [w]-bit integer as a centred remainder.  The theorems below compare
    them with the program. *)

Module Spec.

Definition wrap (w x : Z) : Z := (x + 2 ^ (w - 1)) mod 2 ^ w - 2 ^ (w - 1).
Definition wrap32 := wrap 32.
Definition wrap64 := wrap 64.

(** Arithmetic right shift: floor toward negative infinity. *)
Definition asr (x n : Z) : Z := x / 2 ^ n.

(** A little-endian unsigned 16-bit word from its two bytes, and the same
    bit pattern read as a two's-complement number. *)
Definition u16 (lo hi : Z) : Z := lo + 256 * hi.
Definition s16 (lo hi : Z) : Z :=
  if u16 lo hi <? 32768 then u16 lo hi else u16 lo hi - 65536.

(** The 20-bit sample packed in three bytes. *)
Definition sample20 (b0 b1 b2 : Z) : Z :=
  Z.lor (Z.lor (Z.shiftl b0 12) (Z.shiftl b1 4)) (Z.shiftr b2 4).

(** Stage A. *)
Definition var1_A (T1 T2 temp_raw : Z) : Z :=
  asr (wrap32 (wrap32 (asr temp_raw 3 - wrap32 (T1 * 2)) * T2)) 11.

Definition var2_A (T1 T3 temp_raw : Z) : Z :=
  asr (wrap32
         (asr (wrap32 (wrap32 (asr temp_raw 4 - T1)
                       * wrap32 (asr temp_raw 4 - T1))) 12
          * T3)) 14.

Definition t_fine (T1 T2 T3 temp_raw : Z) : Z :=
  wrap32 (var1_A T1 T2 temp_raw + var2_A T1 T3 temp_raw).

Definition T_of (t_fine : Z) : Z := asr (wrap32 (wrap32 (t_fine * 5) + 128)) 8.

(** Stage B, steps 2, 6 and 7: the divisor [var1]. *)
Definition var1_B (P1 P2 P3 t_fine : Z) : Z :=
  let v := wrap64 (t_fine - 128000) in
  let v6 :=
    wrap64 (asr (wrap64 (wrap64 (v * v) * P3)) 8
            + wrap64 (wrap64 (v * P2) * 2 ^ 12)) in
  asr (wrap64 (wrap64 (2 ^ 47 + v6) * P1)) 33.

End Spec.

(** The little-endian bytes of the two's-complement representation of a
    16-bit integer. *)
Definition byte_of_Z (x : Z) : byte :=
  match Byte.of_N (Z.to_N (x mod 256)) with
  | Some b => b
  | None => x00
  end.

Definition int16_bytes_le (v : Z) : list byte :=
  let pattern := v mod 65536 in
  [ byte_of_Z pattern; byte_of_Z (pattern / 256) ].

(** Two memories hold the same [n] bytes behind two pointers. *)
Definition same_bytes (m1 : memory) (p1 : ptr) (m2 : memory) (p2 : ptr)
    (n : Z) : Prop :=
  forall i, 0 <= i < n -> m1 (p1 + i) = m2 (p2 + i).

(** The value of [t_fine] that the temperature block hands to the pressure
    block, and the divisor [var1] of step 7 computed from it. *)
Definition t_fine_of (m : memory) (cal meas : ptr) : Z :=
  let dig := decodeCalibration m cal in
  Spec.t_fine (T1 dig) (T2 dig) (T3 dig)
    (Spec.sample20 (load m meas 3) (load m meas 4) (load m meas 5)).

Definition pressure_divisor (m : memory) (cal meas : ptr) : Z :=
  let dig := decodeCalibration m cal in
  Spec.var1_B (P1 dig) (P2 dig) (P3 dig) (t_fine_of m cal meas).

(** A second layout of the sample arrays, in a memory filled with 0xFF. *)
Definition other_memory : memory :=
  place 0 calibration (place 100 measurement (fun _ => xff)).

(** The sample arrays with calibration bytes 24..25 and measurement bytes
    6..7 overwritten. *)
Definition tainted_memory : memory :=
  place 24 [xff; xa5]%byte
    (place 106 [x5a; xff]%byte other_memory).

(** The result of [decodeCalibration] on a buffer of [n] bytes at [p] is
    fixed by those [n] bytes: no byte outside the buffer is read. *)
Definition reads_within (n : Z) (m : memory) (p : ptr) : Prop :=
  forall m' : memory,
    same_bytes m' p m p n -> decodeCalibration m' p = decodeCalibration m p.

(** A byte different from the given one. *)
Definition other_byte (b : byte) : byte :=
  if Byte.eqb b x00 then x01 else x00.

(** The first 20 bytes of the sample calibration block, followed in memory
    by zeros, and the same 20 bytes followed by 0xFF. *)
Definition short_buffer : list byte := firstn 20 calibration.
Definition memory_then_zeros : memory := place 0 short_buffer zero_memory.
Definition memory_then_ones : memory := place 0 short_buffer (fun _ => xff).

(** The rational number denoted by a finite floating-point number (0 for
    the others). *)
Definition float_value (x : spec_float) : Q :=
  match x with
  | S754_finite s m e => inject_Z (cond_Zopp s (Zpos m)) * Qpower 2 e
  | _ => 0
  end.

(** The two little-endian bytes of an unsigned 16-bit integer. *)
Definition uint16_bytes_le (u : Z) : list byte :=
  [ byte_of_Z u; byte_of_Z (u / 256) ].

(** The Stage A formulas over the integers, with no wrap-around: the
    compensation formula of the datasheet read as exact arithmetic. *)
Module Exact.

Definition t_fine (T1 T2 T3 temp_raw : Z) : Z :=
  ((temp_raw / 8 - 2 * T1) * T2) / 2048
  + ((((temp_raw / 16 - T1) * (temp_raw / 16 - T1)) / 4096) * T3) / 16384.

Definition T_of (t_fine : Z) : Z := (t_fine * 5 + 128) / 256.

End Exact.

(** A number that is zero or finite, of magnitude below [2 ^ k]. *)
Definition finite_below (k : Z) (x : spec_float) : Prop :=
  match x with
  | S754_zero _ => True
  | S754_finite _ m e => Zpos (digits2_pos m) + e <= k
  | _ => False
  end.

(** The weight of the last mantissa bit of a finite number (0 for the
    others). *)
Definition float_ulp (x : spec_float) : Q :=
  match x with
  | S754_finite _ _ e => Qpower 2 e
  | _ => 0
  end.

(** Where the quantity [N / D] lies with respect to the integer [m]: at
    [m], or between [m] and [m + 1], below, at or above the midpoint. *)
Definition located (m : Z) (l : location) (N D : Z) : Prop :=
  match l with
  | loc_Exact => N = m * D
  | loc_Inexact Lt => m * D < N /\ 2 * N < (2 * m + 1) * D
  | loc_Inexact Eq => 2 * N = (2 * m + 1) * D
  | loc_Inexact Gt => (2 * m + 1) * D < 2 * N /\ N < (m + 1) * D
  end.

(** * Properties *)

(** ** Fixed-width integers *)

Lemma unsigned_range w x : 0 <= w -> 0 <= Int.unsigned w x < 2 ^ w.
Proof.
  intros Hw. unfold Int.unsigned. apply Z.mod_pos_bound.
  apply Z.pow_pos_nonneg; lia.
Qed.

Lemma unsigned_small w x : 0 <= x < 2 ^ w -> Int.unsigned w x = x.
Proof. intros H. unfold Int.unsigned. apply Z.mod_small; assumption. Qed.

Lemma pow2_half w : 0 < w -> 2 ^ w = 2 * 2 ^ (w - 1).
Proof.
  intros Hw. replace w with (Z.succ (w - 1)) at 1 by lia.
  apply Z.pow_succ_r; lia.
Qed.

Lemma signed_range w x :
  0 < w -> - 2 ^ (w - 1) <= Int.signed w x < 2 ^ (w - 1).
Proof.
  intros Hw. unfold Int.signed.
  pose proof (unsigned_range w x ltac:(lia)) as Hu.
  pose proof (pow2_half w Hw) as Hp.
  destruct (Int.unsigned w x <? 2 ^ (w - 1)) eqn:E;
    [apply Z.ltb_lt in E | apply Z.ltb_ge in E]; lia.
Qed.

Lemma signed_small w x :
  0 < w -> - 2 ^ (w - 1) <= x < 2 ^ (w - 1) -> Int.signed w x = x.
Proof.
  intros Hw Hx. unfold Int.signed, Int.unsigned.
  pose proof (pow2_half w Hw) as Hp.
  assert (0 < 2 ^ (w - 1)) by (apply Z.pow_pos_nonneg; lia).
  destruct (Z_lt_le_dec x 0) as [Hneg | Hpos].
  - assert (Hm : x mod 2 ^ w = x + 2 ^ w).
    { symmetry. apply Z.mod_unique with (q := -1); lia. }
    rewrite Hm.
    destruct (x + 2 ^ w <? 2 ^ (w - 1)) eqn:E;
      [apply Z.ltb_lt in E | apply Z.ltb_ge in E]; lia.
  - rewrite Z.mod_small by lia.
    destruct (x <? 2 ^ (w - 1)) eqn:E;
      [apply Z.ltb_lt in E | apply Z.ltb_ge in E]; lia.
Qed.

(** The two readings of the wrap-around of a signed integer agree. *)
Lemma signed_wrap w x : 0 < w -> Int.signed w x = Spec.wrap w x.
Proof.
  intros Hw. unfold Int.signed, Int.unsigned, Spec.wrap.
  pose proof (pow2_half w Hw) as Hp.
  assert (Hh : 0 < 2 ^ (w - 1)) by (apply Z.pow_pos_nonneg; lia).
  pose proof (Z.mod_pos_bound x (2 ^ w) ltac:(lia)) as Hu.
  pose proof (Z.div_mod x (2 ^ w) ltac:(lia)) as Hx.
  destruct (x mod 2 ^ w <? 2 ^ (w - 1)) eqn:E;
    [apply Z.ltb_lt in E | apply Z.ltb_ge in E].
  - rewrite <- (Z.mod_unique (x + 2 ^ (w - 1)) (2 ^ w) (x / 2 ^ w)
                  (x mod 2 ^ w + 2 ^ (w - 1))); lia.
  - rewrite <- (Z.mod_unique (x + 2 ^ (w - 1)) (2 ^ w) (x / 2 ^ w + 1)
                  (x mod 2 ^ w - 2 ^ (w - 1))); lia.
Qed.

Lemma to_int32_wrap x : Int.to_int32 x = Spec.wrap32 x.
Proof. apply signed_wrap; lia. Qed.

Lemma to_int64_wrap x : Int.to_int64 x = Spec.wrap64 x.
Proof. apply signed_wrap; lia. Qed.

Lemma to_int32_small x : - 2 ^ 31 <= x < 2 ^ 31 -> Int.to_int32 x = x.
Proof. intros H. apply signed_small; [lia | exact H]. Qed.

Lemma to_int64_small x : - 2 ^ 63 <= x < 2 ^ 63 -> Int.to_int64 x = x.
Proof. intros H. apply signed_small; [lia | exact H]. Qed.

Lemma to_int32_range x : - 2 ^ 31 <= Int.to_int32 x < 2 ^ 31.
Proof. apply (signed_range 32 x); lia. Qed.

Lemma shr_asr x n : 0 <= n -> Z.shiftr x n = Spec.asr x n.
Proof. intros Hn. apply Z.shiftr_div_pow2; exact Hn. Qed.

Lemma lor_below_pow2 a b n :
  0 <= a < 2 ^ n -> 0 <= b < 2 ^ n -> 0 <= Z.lor a b < 2 ^ n.
Proof.
  intros Ha Hb.
  assert (Hnn : 0 <= Z.lor a b) by (apply Z.lor_nonneg; lia).
  split; [exact Hnn |].
  destruct (Z.eq_dec a 0) as [-> | Ha0]; [rewrite Z.lor_0_l; lia |].
  destruct (Z.eq_dec b 0) as [-> | Hb0]; [rewrite Z.lor_0_r; lia |].
  assert (Hl : Z.lor a b <> 0).
  { intros E. apply Z.lor_eq_0_iff in E. lia. }
  apply Z.log2_lt_pow2; [lia |].
  rewrite Z.log2_lor by lia.
  apply Z.max_lub_lt; apply Z.log2_lt_pow2; lia.
Qed.

Lemma testbit_above a n k :
  0 <= a < 2 ^ n -> n <= k -> Z.testbit a k = false.
Proof.
  intros Ha Hk.
  destruct (Z.eq_dec a 0) as [-> | Ha0]; [apply Z.bits_0 |].
  apply Z.bits_above_log2; [lia |].
  assert (Z.log2 a < n) by (apply Z.log2_lt_pow2; lia). lia.
Qed.

(** Or-ing a shifted high part onto a low part that fits below it is an
    addition. *)
Lemma lor_shiftl_add lo hi n :
  0 <= n -> 0 <= lo < 2 ^ n -> Z.lor lo (Z.shiftl hi n) = lo + hi * 2 ^ n.
Proof.
  intros Hn Hlo.
  assert (Hd : Z.land lo (Z.shiftl hi n) = 0).
  { apply Z.bits_inj'. intros k Hk. rewrite Z.land_spec, Z.bits_0.
    destruct (Z_lt_le_dec k n) as [Hlt | Hge].
    - rewrite Z.shiftl_spec_low by lia. apply andb_false_r.
    - rewrite (testbit_above lo n k) by lia. reflexivity. }
  rewrite <- Z.lxor_lor by exact Hd.
  rewrite <- Z.add_nocarry_lxor by exact Hd.
  rewrite Z.shiftl_mul_pow2 by lia. reflexivity.
Qed.

(** ** Memory *)

Lemma load_range m p i : 0 <= load m p i < 256.
Proof.
  unfold load. pose proof (Byte.to_N_bounded (m (p + i))). lia.
Qed.

Lemma load_shift m p k i : load m (p + k) i = load m p (k + i).
Proof. unfold load. f_equal. f_equal. f_equal. lia. Qed.

Lemma load_place base bytes m i :
  0 <= i < Z.of_nat (length bytes) ->
  load (place base bytes m) base i
  = Z.of_N (Byte.to_N (nth (Z.to_nat i) bytes x00)).
Proof.
  intros Hi. unfold load, place.
  replace ((base <=? base + i) && (base + i <? base + Z.of_nat (length bytes)))
    with true.
  - replace (base + i - base) with i by lia. reflexivity.
  - symmetry. apply andb_true_iff. split; [apply Z.leb_le | apply Z.ltb_lt]; lia.
Qed.

Lemma load_same m1 p1 m2 p2 n i :
  same_bytes m1 p1 m2 p2 n -> 0 <= i < n -> load m1 p1 i = load m2 p2 i.
Proof. intros H Hi. unfold load. rewrite (H i Hi). reflexivity. Qed.

Lemma byte_of_Z_value x : Z.of_N (Byte.to_N (byte_of_Z x)) = x mod 256.
Proof.
  unfold byte_of_Z.
  pose proof (Z.mod_pos_bound x 256 ltac:(lia)) as Hr.
  destruct (Byte.of_N (Z.to_N (x mod 256))) as [b |] eqn:E.
  - apply Byte.to_of_N in E. rewrite E. apply Z2N.id. lia.
  - apply Byte.of_N_None_iff in E. lia.
Qed.

(** ** Primitive decoders *)

Lemma decode20bit_sample20 m data :
  decode20bit m data
  = Spec.sample20 (load m data 0) (load m data 1) (load m data 2)
  /\ 0 <= decode20bit m data <= 1048575.
Proof.
  pose proof (load_range m data 0) as H0.
  pose proof (load_range m data 1) as H1.
  pose proof (load_range m data 2) as H2.
  unfold decode20bit, Spec.sample20, Int.or_u32, Int.shl_u32, Int.shr_u32,
    Int.to_uint32.
  rewrite !(unsigned_small 32 (load _ _ _)) by lia.
  rewrite !Z.shiftl_mul_pow2, Z.shiftr_div_pow2 by lia.
  rewrite !unsigned_small by lia.
  assert (B : 0 <= Z.lor (Z.lor (load m data 0 * 2 ^ 12) (load m data 1 * 2 ^ 4))
                     (load m data 2 / 2 ^ 4) < 2 ^ 20).
  { apply lor_below_pow2; [apply lor_below_pow2 |]; try lia.
    split; [apply Z.div_pos; lia | apply Z.div_lt_upper_bound; lia]. }
  rewrite to_int32_small by lia. split; [reflexivity | lia].
Qed.

Lemma decodeU16LE_u16 m data :
  decodeU16LE m data = Spec.u16 (load m data 0) (load m data 1).
Proof.
  pose proof (load_range m data 0) as H0.
  pose proof (load_range m data 1) as H1.
  unfold decodeU16LE, Spec.u16, Int.or_u32, Int.shl_u32, Int.to_uint32,
    Int.to_uint16.
  rewrite !(unsigned_small 32 (load _ _ _)) by lia.
  rewrite (unsigned_small 32 (Z.shiftl _ _))
    by (rewrite Z.shiftl_mul_pow2; lia).
  rewrite lor_shiftl_add by lia.
  rewrite unsigned_small by lia. lia.
Qed.

Lemma decodeU16LE_range m data : 0 <= decodeU16LE m data < 65536.
Proof.
  rewrite decodeU16LE_u16. unfold Spec.u16.
  pose proof (load_range m data 0). pose proof (load_range m data 1). lia.
Qed.

Lemma decodeS16LE_s16 m data :
  decodeS16LE m data = Spec.s16 (load m data 0) (load m data 1).
Proof.
  unfold decodeS16LE, Spec.s16, Int.to_int16, Int.signed.
  pose proof (decodeU16LE_range m data) as Hr.
  rewrite unsigned_small by (change (2 ^ 16) with 65536; lia).
  rewrite decodeU16LE_u16. reflexivity.
Qed.

Lemma decodeS16LE_range m data : -32768 <= decodeS16LE m data < 32768.
Proof.
  unfold decodeS16LE, Int.to_int16.
  apply (signed_range 16 (decodeU16LE m data)). lia.
Qed.

(** ** Calibration parser *)

(** The offset table of [decodeCalibration]: every field as a function of
    the bytes it is built from. *)
Lemma decodeCalibration_offsets m cal :
  decodeCalibration m cal =
  {| T1 := Spec.u16 (load m cal 0) (load m cal 1);
     T2 := Spec.s16 (load m cal 2) (load m cal 3);
     T3 := Spec.s16 (load m cal 4) (load m cal 5);
     P1 := Spec.u16 (load m cal 6) (load m cal 7);
     P2 := Spec.s16 (load m cal 8) (load m cal 9);
     P3 := Spec.s16 (load m cal 10) (load m cal 11);
     P4 := Spec.s16 (load m cal 12) (load m cal 13);
     P5 := Spec.s16 (load m cal 14) (load m cal 15);
     P6 := Spec.s16 (load m cal 16) (load m cal 17);
     P7 := Spec.s16 (load m cal 18) (load m cal 19);
     P8 := Spec.s16 (load m cal 20) (load m cal 21);
     P9 := Spec.s16 (load m cal 22) (load m cal 23);
     H1 := load m cal 25;
     H2 := None; H3 := None; H4 := None; H5 := None |}.
Proof.
  unfold decodeCalibration.
  rewrite !decodeU16LE_u16, !decodeS16LE_s16, !load_shift.
  reflexivity.
Qed.

(** C1.  The calibration block of the sample data, placed anywhere in any
    memory, decodes to the constants documented next to it (T1 = 27702,
    T2 = 26629, T3 = -1000, P1 = 36257, P2 = -10605, P3 = 3024, P4 = 1731,
    P5 = 315, P6 = -7, P7 = 15500, P8 = -14600, P9 = 6000); and for every
    memory each field is the little-endian word at its fixed offset: T1 at
    0, T2 at 2, T3 at 4, P1 at 6, P2 at 8, P3 at 10, P4 at 12, P5 at 14, P6
    at 16, P7 at 18, P8 at 20, P9 at 22, and H1 the byte at 25. *)
Theorem decodeCalibration_known_vector :
  forall (m : memory) (cal : ptr),
    decodeCalibration (place cal calibration m) cal =
    {| T1 := 27702; T2 := 26629; T3 := -1000;
       P1 := 36257; P2 := -10605; P3 := 3024; P4 := 1731; P5 := 315;
       P6 := -7; P7 := 15500; P8 := -14600; P9 := 6000;
       H1 := 0;
       H2 := None; H3 := None; H4 := None; H5 := None |}
    /\
    decodeCalibration m cal =
    {| T1 := Spec.u16 (load m cal 0) (load m cal 1);
       T2 := Spec.s16 (load m cal 2) (load m cal 3);
       T3 := Spec.s16 (load m cal 4) (load m cal 5);
       P1 := Spec.u16 (load m cal 6) (load m cal 7);
       P2 := Spec.s16 (load m cal 8) (load m cal 9);
       P3 := Spec.s16 (load m cal 10) (load m cal 11);
       P4 := Spec.s16 (load m cal 12) (load m cal 13);
       P5 := Spec.s16 (load m cal 14) (load m cal 15);
       P6 := Spec.s16 (load m cal 16) (load m cal 17);
       P7 := Spec.s16 (load m cal 18) (load m cal 19);
       P8 := Spec.s16 (load m cal 20) (load m cal 21);
       P9 := Spec.s16 (load m cal 22) (load m cal 23);
       H1 := load m cal 25;
       H2 := None; H3 := None; H4 := None; H5 := None |}.
Proof.
  intros m cal. split; [| apply decodeCalibration_offsets].
  rewrite decodeCalibration_offsets.
  rewrite !load_place by (cbn [length calibration]; lia).
  reflexivity.
Qed.

(** C5.  Round trip of the signed decoder: for every 16-bit signed integer
    [v], the two little-endian bytes of its two's-complement representation
    decode to [v]; and the bytes 0x93, 0xD6 decode to -10605. *)
Theorem decodeS16LE_round_trip :
  forall (m : memory) (data : ptr) (v : Z),
    -32768 <= v <= 32767 ->
    decodeS16LE (place data (int16_bytes_le v) m) data = v
    /\ decodeS16LE (place data [x93; xd6]%byte m) data = -10605.
Proof.
  intros m data v Hv. split.
  - rewrite decodeS16LE_s16.
    rewrite !load_place by (cbn [length int16_bytes_le]; lia).
    change (Z.to_nat 0) with 0%nat. change (Z.to_nat 1) with 1%nat.
    cbn [nth int16_bytes_le].
    rewrite !byte_of_Z_value.
    unfold Spec.s16, Spec.u16.
    pose proof (Z.mod_pos_bound v 65536 ltac:(lia)) as Hp.
    assert (E : v mod 65536 mod 256 + 256 * ((v mod 65536 / 256) mod 256)
                = v mod 65536).
    { rewrite (Z.mod_small (v mod 65536 / 256)).
      - pose proof (Z.div_mod (v mod 65536) 256 ltac:(lia)). lia.
      - split; [apply Z.div_pos; lia | apply Z.div_lt_upper_bound; lia]. }
    rewrite E.
    destruct (Z_lt_le_dec v 0) as [Hneg | Hpos].
    + assert (Hm : v mod 65536 = v + 65536).
      { symmetry. apply Z.mod_unique with (q := -1); lia. }
      rewrite Hm.
      destruct (v + 65536 <? 32768) eqn:C;
        [apply Z.ltb_lt in C | apply Z.ltb_ge in C]; lia.
    + rewrite Z.mod_small by lia.
      destruct (v <? 32768) eqn:C;
        [apply Z.ltb_lt in C | apply Z.ltb_ge in C]; lia.
  - rewrite decodeS16LE_s16.
    rewrite !load_place by (cbn [length]; lia).
    reflexivity.
Qed.

Lemma decodeS16LE_round_trip_witness :
  -32768 <= -10605 <= 32767
  /\ decodeS16LE (place 0 (int16_bytes_le (-10605)) zero_memory) 0 = -10605
  /\ decodeS16LE (place 0 [x93; xd6]%byte zero_memory) 0 = -10605.
Proof.
  split; [lia |].
  apply (decodeS16LE_round_trip zero_memory 0 (-10605)). lia.
Defined.

(** C6.  For every three bytes behind the pointer, [decode20bit] is
    [(b0 << 12) | (b1 << 4) | (b2 >> 4)], a value between 0 and 1048575;
    the bytes 7E 4C 00 decode to 517312 and the bytes 6C 07 00 to
    442480. *)
Theorem decode20bit_value_and_bounds :
  forall (m : memory) (data : ptr),
    decode20bit m data
    = Z.lor (Z.lor (Z.shiftl (load m data 0) 12) (Z.shiftl (load m data 1) 4))
            (Z.shiftr (load m data 2) 4)
    /\ 0 <= decode20bit m data <= 1048575
    /\ decode20bit (place data [x7e; x4c; x00]%byte m) data = 517312
    /\ decode20bit (place data [x6c; x07; x00]%byte m) data = 442480.
Proof.
  intros m data.
  destruct (decode20bit_sample20 m data) as [E B].
  split; [exact E |]. split; [exact B |].
  split.
  - rewrite (proj1 (decode20bit_sample20 _ _)).
    rewrite !load_place by (cbn [length]; lia). reflexivity.
  - rewrite (proj1 (decode20bit_sample20 _ _)).
    rewrite !load_place by (cbn [length]; lia). reflexivity.
Qed.

(** ** Compensation engine *)

Lemma temp_set_temp r v : temp (set_temp r v) = v.
Proof. reflexivity. Qed.

Lemma pressure_set_temp r v : pressure (set_temp r v) = pressure r.
Proof. reflexivity. Qed.

Lemma humidity_set_temp r v : humidity (set_temp r v) = humidity r.
Proof. reflexivity. Qed.

Lemma decodeCalibration_ranges m cal :
  let dig := decodeCalibration m cal in
  0 <= T1 dig < 65536 /\ 0 <= P1 dig < 65536
  /\ (-32768 <= T2 dig < 32768) /\ (-32768 <= T3 dig < 32768)
  /\ (-32768 <= P2 dig < 32768) /\ (-32768 <= P3 dig < 32768).
Proof.
  cbn [decodeCalibration T1 T2 T3 P1 P2 P3].
  repeat split;
    first [ apply decodeU16LE_range | apply decodeS16LE_range ].
Qed.

(** The temperature block computes the Stage A formulas. *)
Lemma decode_Temperature_stage_A m meas dig result :
  - 2 ^ 31 <= T1 dig < 2 ^ 31 ->
  - 2 ^ 31 <= T2 dig < 2 ^ 31 ->
  - 2 ^ 31 <= T3 dig < 2 ^ 31 ->
  let t_fine :=
    Spec.t_fine (T1 dig) (T2 dig) (T3 dig) (decode20bit m (meas + 3)) in
  decode_Temperature m meas dig result
  = (t_fine,
     set_temp result (F32.div (F32.of_Z (Spec.T_of t_fine)) (F32.of_Z 100))).
Proof.
  intros H1 H2 H3. cbv zeta.
  unfold decode_Temperature, Spec.t_fine, Spec.T_of, Spec.var1_A, Spec.var2_A.
  unfold Int.shr32, Int.mul32, Int.sub32, Int.add32, Int.shl32.
  rewrite !(to_int32_small (T1 dig)), !(to_int32_small (T2 dig)),
    !(to_int32_small (T3 dig)) by assumption.
  rewrite !to_int32_wrap, !shr_asr, Z.shiftl_mul_pow2 by lia.
  reflexivity.
Qed.

Lemma t_fine_range m meas dig result :
  - 2 ^ 31 <= fst (decode_Temperature m meas dig result) < 2 ^ 31.
Proof. cbn [decode_Temperature fst]. apply to_int32_range. Qed.

(** The divisor tested by the pressure block is the [var1] of step 7. *)
Lemma decode_Pressure_divisor m meas dig t_fine result :
  - 2 ^ 63 <= t_fine < 2 ^ 63 ->
  - 2 ^ 63 <= P1 dig < 2 ^ 63 ->
  - 2 ^ 63 <= P2 dig < 2 ^ 63 ->
  - 2 ^ 63 <= P3 dig < 2 ^ 63 ->
  Spec.var1_B (P1 dig) (P2 dig) (P3 dig) t_fine = 0 ->
  decode_Pressure m meas dig t_fine result = Some result.
Proof.
  intros Ht H1 H2 H3 Hz.
  unfold decode_Pressure. cbv zeta.
  match goal with
  | |- context [negb (?v =? 0)] =>
      replace v with (Spec.var1_B (P1 dig) (P2 dig) (P3 dig) t_fine)
  end.
  - rewrite Hz. reflexivity.
  - unfold Spec.var1_B. cbv zeta.
    unfold Int.shr64, Int.mul64, Int.sub64, Int.add64, Int.shl64.
    rewrite (to_int64_small t_fine), (to_int64_small (P1 dig)),
      (to_int64_small (P2 dig)), (to_int64_small (P3 dig)) by assumption.
    replace (Int.to_int64 (Z.shiftl (Int.to_int64 1) 47)) with (2 ^ 47)
      by reflexivity.
    rewrite !to_int64_wrap, !shr_asr, Z.shiftl_mul_pow2 by lia.
    reflexivity.
Qed.

Lemma var1_B_P1_zero P2 P3 t_fine : Spec.var1_B 0 P2 P3 t_fine = 0.
Proof.
  unfold Spec.var1_B. cbv zeta. rewrite Z.mul_0_r. reflexivity.
Qed.

(** The pressure block never divides by zero: it always returns, and it
    leaves the other two members as they were. *)
Lemma decode_Pressure_returns m meas dig t_fine result :
  exists r,
    decode_Pressure m meas dig t_fine result = Some r
    /\ temp r = temp result /\ humidity r = humidity result.
Proof.
  unfold decode_Pressure. cbv zeta.
  match goal with
  | |- context [negb (?v =? 0)] => destruct (v =? 0) eqn:E
  end; cbn [negb].
  - exists result. repeat split.
  - unfold Int.div64 at 1. rewrite E.
    eexists. split; [reflexivity | split; reflexivity].
Qed.

Lemma decode_unfold m cal meas :
  decode m cal meas
  = decode_Pressure m meas (decodeCalibration m cal)
      (fst (decode_Temperature m meas (decodeCalibration m cal)
              Measurement_default))
      (snd (decode_Temperature m meas (decodeCalibration m cal)
              Measurement_default)).
Proof.
  unfold decode. cbv zeta.
  destruct (decode_Temperature m meas (decodeCalibration m cal)
              Measurement_default) as [t_fine result].
  cbn [fst snd]. reflexivity.
Qed.

(** [decode] always returns a measurement. *)
Lemma decode_returns m cal meas : exists r, decode m cal meas = Some r.
Proof.
  rewrite decode_unfold.
  destruct (decode_Pressure_returns m meas (decodeCalibration m cal)
              (fst (decode_Temperature m meas (decodeCalibration m cal)
                      Measurement_default))
              (snd (decode_Temperature m meas (decodeCalibration m cal)
                      Measurement_default))) as [r [Hr _]].
  exists r. exact Hr.
Qed.

Lemma pressure_divisor_eq m cal meas :
  pressure_divisor m cal meas
  = Spec.var1_B (P1 (decodeCalibration m cal)) (P2 (decodeCalibration m cal))
      (P3 (decodeCalibration m cal)) (t_fine_of m cal meas).
Proof. unfold pressure_divisor. reflexivity. Qed.

Lemma decode_Temperature_of m cal meas :
  decode_Temperature m meas (decodeCalibration m cal) Measurement_default
  = (t_fine_of m cal meas,
     set_temp Measurement_default
       (F32.div (F32.of_Z (Spec.T_of (t_fine_of m cal meas)))
                (F32.of_Z 100))).
Proof.
  destruct (decodeCalibration_ranges m cal) as (HT1 & _ & HT2 & HT3 & _).
  rewrite decode_Temperature_stage_A by lia.
  unfold t_fine_of. cbv zeta.
  rewrite (proj1 (decode20bit_sample20 m (meas + 3))), !load_shift.
  reflexivity.
Qed.

Lemma t_fine_of_range m cal meas : - 2 ^ 31 <= t_fine_of m cal meas < 2 ^ 31.
Proof.
  unfold t_fine_of, Spec.t_fine. cbv zeta.
  rewrite <- to_int32_wrap. apply to_int32_range.
Qed.

(** [decode] is the pressure block run on the [t_fine] and on the result
    record left by the temperature block. *)
Lemma decode_stages m cal meas :
  decode m cal meas
  = decode_Pressure m meas (decodeCalibration m cal)
      (t_fine_of m cal meas)
      (set_temp Measurement_default
         (F32.div (F32.of_Z (Spec.T_of (t_fine_of m cal meas)))
                  (F32.of_Z 100))).
Proof. rewrite decode_unfold, decode_Temperature_of. reflexivity. Qed.


(** C3.  Whenever the divisor [var1] of step 7 is 0, and in particular
    whenever the calibration has P1 = 0, [decode] performs no division: it
    returns a measurement whose pressure is exactly +0.0. *)
Theorem decode_degenerate_pressure :
  forall (m : memory) (cal meas : ptr),
    pressure_divisor m cal meas = 0 \/ P1 (decodeCalibration m cal) = 0 ->
    pressure_divisor m cal meas = 0
    /\ exists r, decode m cal meas = Some r /\ pressure r = S754_zero false.
Proof.
  intros m cal meas H.
  assert (Hz : pressure_divisor m cal meas = 0).
  { destruct H as [H | H]; [exact H |].
    rewrite pressure_divisor_eq, H. apply var1_B_P1_zero. }
  split; [exact Hz |].
  pose proof (decode_stages m cal meas) as E.
  destruct (decodeCalibration_ranges m cal) as (_ & HP1 & _ & _ & HP2 & HP3).
  pose proof (t_fine_of_range m cal meas) as Ht.
  rewrite pressure_divisor_eq in Hz.
  rewrite (decode_Pressure_divisor m meas (decodeCalibration m cal)
             (t_fine_of m cal meas)) in E;
    [| lia | lia | lia | lia | exact Hz].
  eexists. split; [exact E | apply pressure_set_temp].
Qed.

Lemma decode_degenerate_pressure_witness :
  (pressure_divisor zero_memory 0 0 = 0
   \/ P1 (decodeCalibration zero_memory 0) = 0)
  /\ pressure_divisor zero_memory 0 0 = 0
  /\ exists r, decode zero_memory 0 0 = Some r /\ pressure r = S754_zero false.
Proof.
  split; [right; reflexivity |].
  apply (decode_degenerate_pressure zero_memory 0 0). right. reflexivity.
Defined.

(** Every measurement returned by [decode] has humidity +0.0. *)
Lemma decode_humidity m cal meas :
  exists r, decode m cal meas = Some r /\ humidity r = S754_zero false.
Proof.
  rewrite decode_stages.
  match goal with
  | |- context [decode_Pressure ?a ?b ?c ?d ?e] =>
      destruct (decode_Pressure_returns a b c d e) as (r & Hr & _ & Hh)
  end.
  exists r. split; [exact Hr | rewrite Hh; apply humidity_set_temp].
Qed.


(** ** Dependence on the input bytes *)

Lemma decode20bit_same m1 p1 m2 p2 :
  same_bytes m1 p1 m2 p2 3 -> decode20bit m1 p1 = decode20bit m2 p2.
Proof.
  intros H.
  rewrite (proj1 (decode20bit_sample20 m1 p1)).
  rewrite (proj1 (decode20bit_sample20 m2 p2)).
  rewrite !(load_same m1 p1 m2 p2 3) by (assumption || lia).
  reflexivity.
Qed.

Lemma same_bytes_shift m1 p1 m2 p2 n k j :
  same_bytes m1 p1 m2 p2 n -> 0 <= k -> k + j <= n ->
  same_bytes m1 (p1 + k) m2 (p2 + k) j.
Proof.
  intros H Hk Hj i Hi.
  replace (p1 + k + i) with (p1 + (k + i)) by lia.
  replace (p2 + k + i) with (p2 + (k + i)) by lia.
  apply H. lia.
Qed.

(** [decode] reads the calibration block through offsets 0..23 only and
    the measurement block through offsets 0..5 only. *)
Lemma decode_same m1 cal1 meas1 m2 cal2 meas2 :
  same_bytes m1 cal1 m2 cal2 24 ->
  same_bytes m1 meas1 m2 meas2 6 ->
  decode m1 cal1 meas1 = decode m2 cal2 meas2.
Proof.
  intros Hc Hm.
  unfold decode, decode_Temperature, decode_Pressure. cbv zeta.
  rewrite !decodeCalibration_offsets.
  cbn [T1 T2 T3 P1 P2 P3 P4 P5 P6 P7 P8 P9].
  rewrite !(load_same m1 cal1 m2 cal2 24) by (assumption || lia).
  rewrite (decode20bit_same m1 (meas1 + 3) m2 (meas2 + 3))
    by (apply (same_bytes_shift m1 meas1 m2 meas2 6); (assumption || lia)).
  rewrite (decode20bit_same m1 (meas1 + 0) m2 (meas2 + 0))
    by (apply (same_bytes_shift m1 meas1 m2 meas2 6); (assumption || lia)).
  reflexivity.
Qed.

Lemma same_bytes_weaken m1 p1 m2 p2 n k :
  same_bytes m1 p1 m2 p2 n -> k <= n -> same_bytes m1 p1 m2 p2 k.
Proof. intros H Hk i Hi. apply H. lia. Qed.

(** A decision procedure for [same_bytes] on concrete memories. *)
Lemma same_bytes_check m1 p1 m2 p2 (n : nat) :
  forallb (fun i => Byte.eqb (m1 (p1 + Z.of_nat i)) (m2 (p2 + Z.of_nat i)))
          (seq 0 n) = true ->
  same_bytes m1 p1 m2 p2 (Z.of_nat n).
Proof.
  intros H i Hi. rewrite forallb_forall in H.
  specialize (H (Z.to_nat i)). rewrite Z2Nat.id in H by lia.
  apply Byte.byte_dec_bl, H, in_seq. lia.
Qed.

(** C8.  [decode] is a function of the bytes of its two buffers alone:
    two calls whose 26 calibration bytes and 8 measurement bytes are the
    same, wherever the buffers lie and whatever else the memories hold,
    return the same measurement, equal in all three members. *)
Theorem decode_deterministic :
  forall (m1 : memory) (cal1 meas1 : ptr) (m2 : memory) (cal2 meas2 : ptr),
    same_bytes m1 cal1 m2 cal2 26 ->
    same_bytes m1 meas1 m2 meas2 8 ->
    decode m1 cal1 meas1 = decode m2 cal2 meas2
    /\ exists r, decode m1 cal1 meas1 = Some r.
Proof.
  intros m1 cal1 meas1 m2 cal2 meas2 Hc Hm.
  split; [| apply decode_returns].
  apply decode_same.
  - apply (same_bytes_weaken _ _ _ _ 26); [exact Hc | lia].
  - apply (same_bytes_weaken _ _ _ _ 8); [exact Hm | lia].
Qed.

Lemma decode_deterministic_witness :
  same_bytes static_memory calibration_ptr other_memory 0 26
  /\ same_bytes static_memory measurement_ptr other_memory 100 8
  /\ decode static_memory calibration_ptr measurement_ptr
     = decode other_memory 0 100
  /\ exists r, decode static_memory calibration_ptr measurement_ptr = Some r.
Proof.
  assert (Hc : same_bytes static_memory calibration_ptr other_memory 0 26).
  { apply (same_bytes_check _ _ _ _ 26). vm_compute. reflexivity. }
  assert (Hm : same_bytes static_memory measurement_ptr other_memory 100 8).
  { apply (same_bytes_check _ _ _ _ 8). vm_compute. reflexivity. }
  split; [exact Hc |]. split; [exact Hm |].
  apply (decode_deterministic static_memory calibration_ptr measurement_ptr
           other_memory 0 100 Hc Hm).
Defined.

(** C10.  The measurement depends on calibration bytes 0..23 and on
    measurement bytes 0..5 only: two calls that agree on those bytes
    return the same measurement, whatever calibration bytes 24..25 and
    measurement bytes 6..7 are. *)
Theorem decode_input_footprint :
  forall (m1 : memory) (cal1 meas1 : ptr) (m2 : memory) (cal2 meas2 : ptr),
    same_bytes m1 cal1 m2 cal2 24 ->
    same_bytes m1 meas1 m2 meas2 6 ->
    decode m1 cal1 meas1 = decode m2 cal2 meas2
    /\ exists r, decode m1 cal1 meas1 = Some r.
Proof.
  intros m1 cal1 meas1 m2 cal2 meas2 Hc Hm.
  split; [apply decode_same; assumption | apply decode_returns].
Qed.

Lemma decode_input_footprint_witness :
  same_bytes other_memory 0 tainted_memory 0 24
  /\ same_bytes other_memory 100 tainted_memory 100 6
  /\ other_memory 24 <> tainted_memory 24
  /\ other_memory 25 <> tainted_memory 25
  /\ other_memory 106 <> tainted_memory 106
  /\ other_memory 107 <> tainted_memory 107
  /\ decode other_memory 0 100 = decode tainted_memory 0 100
  /\ exists r, decode other_memory 0 100 = Some r.
Proof.
  assert (Hc : same_bytes other_memory 0 tainted_memory 0 24).
  { apply (same_bytes_check _ _ _ _ 24). vm_compute. reflexivity. }
  assert (Hm : same_bytes other_memory 100 tainted_memory 100 6).
  { apply (same_bytes_check _ _ _ _ 6). vm_compute. reflexivity. }
  split; [exact Hc |]. split; [exact Hm |].
  repeat (split; [vm_compute; discriminate |]).
  apply (decode_input_footprint other_memory 0 100 tainted_memory 0 100 Hc Hm).
Defined.

(** ** The calibration parser and the length of its buffer *)

Lemma other_byte_differs b : Byte.to_N (other_byte b) <> Byte.to_N b.
Proof.
  intros E.
  assert (Eb : other_byte b = b).
  { pose proof (Byte.of_to_N (other_byte b)) as H1.
    pose proof (Byte.of_to_N b) as H2. congruence. }
  unfold other_byte in Eb.
  destruct (Byte.eqb b x00) eqn:C.
  - apply Byte.byte_dec_bl in C. congruence.
  - apply Byte.eqb_false in C. congruence.
Qed.

(** C7, as stated, fails: called on a 20-byte buffer, [decodeCalibration]
    reports no error; it returns a calibration whose P8, P9 and H1 come from
    the bytes that follow the buffer. *)
Lemma decodeCalibration_short_buffer_not_rejected :
  length short_buffer = 20%nat
  /\ same_bytes memory_then_ones 0 memory_then_zeros 0 20
  /\ P8 (decodeCalibration memory_then_zeros 0) = 0
  /\ P8 (decodeCalibration memory_then_ones 0) = -1
  /\ H1 (decodeCalibration memory_then_ones 0) = 255
  /\ ~ reads_within 20 memory_then_zeros 0.
Proof.
  assert (Hs : same_bytes memory_then_ones 0 memory_then_zeros 0 20).
  { apply (same_bytes_check _ _ _ _ 20). vm_compute. reflexivity. }
  split; [reflexivity |]. split; [exact Hs |].
  split; [vm_compute; reflexivity |].
  split; [vm_compute; reflexivity |].
  split; [vm_compute; reflexivity |].
  intros R. specialize (R memory_then_ones Hs).
  apply (f_equal P8) in R. vm_compute in R. discriminate R.
Qed.

(** C7, amended.  [decodeCalibration] checks no length and has no error
    result; it always returns a calibration, built from the bytes at
    offsets 0..23 and 25.  Its reads stay inside a buffer of [n] bytes
    exactly when [n] is at least 26. *)
Theorem decodeCalibration_needs_26_bytes :
  forall (m : memory) (p : ptr) (n : Z), reads_within n m p <-> 26 <= n.
Proof.
  intros m p n. split.
  - intros R. destruct (Z_lt_le_dec n 26) as [Hlt | Hge]; [exfalso | exact Hge].
    set (m' := fun a : Z => if a =? p + 25 then other_byte (m (p + 25)) else m a).
    assert (Hs : same_bytes m' p m p n).
    { intros i Hi. unfold m'.
      destruct (p + i =? p + 25) eqn:C; [apply Z.eqb_eq in C; lia | reflexivity]. }
    specialize (R m' Hs). apply (f_equal H1) in R.
    cbn [decodeCalibration H1] in R. unfold load, m' in R.
    rewrite Z.eqb_refl in R.
    apply (other_byte_differs (m (p + 25))). lia.
  - intros Hn m' Hs. rewrite !decodeCalibration_offsets.
    rewrite !(load_same m' p m p n) by (assumption || lia).
    reflexivity.
Qed.

Lemma decodeCalibration_needs_26_bytes_witness :
  reads_within 26 static_memory calibration_ptr
  /\ ~ reads_within 20 static_memory calibration_ptr.
Proof.
  split.
  - apply (proj2 (decodeCalibration_needs_26_bytes
                    static_memory calibration_ptr 26)). lia.
  - intros R.
    apply (proj1 (decodeCalibration_needs_26_bytes
                    static_memory calibration_ptr 20)) in R. lia.
Defined.

(** ** Floating-point formats

    Every operation of the floating-point specification that the program
    uses returns a number of its format. *)

Lemma digits2_pos_bounds p :
  2 ^ (Zpos (digits2_pos p) - 1) <= Zpos p < 2 ^ Zpos (digits2_pos p).
Proof.
  induction p as [p IH | p IH |]; cbn [digits2_pos].
  - rewrite Pos2Z.inj_succ.
    replace (Z.succ (Zpos (digits2_pos p)) - 1)
      with (Z.succ (Zpos (digits2_pos p) - 1)) by lia.
    rewrite !Z.pow_succ_r by lia. lia.
  - rewrite Pos2Z.inj_succ.
    replace (Z.succ (Zpos (digits2_pos p)) - 1)
      with (Z.succ (Zpos (digits2_pos p) - 1)) by lia.
    rewrite !Z.pow_succ_r by lia. lia.
  - cbn. lia.
Qed.

Lemma Zdigits2_nonneg m : 0 <= Zdigits2 m.
Proof. destruct m; cbn; lia. Qed.

Lemma Zdigits2_bounds m :
  0 < m -> 2 ^ (Zdigits2 m - 1) <= m < 2 ^ Zdigits2 m.
Proof.
  destruct m as [| p | p]; try lia. intros _. apply digits2_pos_bounds.
Qed.

Lemma Zdigits2_pos m : 0 < m -> 0 < Zdigits2 m.
Proof. destruct m; cbn; lia. Qed.

Lemma Zdigits2_zero m : 0 <= m -> Zdigits2 m = 0 -> m = 0.
Proof. destruct m; cbn; lia. Qed.

(** A number that reaches [2 ^ k] has more than [k] binary digits. *)
Lemma Zdigits2_above m k : 0 <= k -> 2 ^ k <= m -> k < Zdigits2 m.
Proof.
  intros Hk Hm.
  assert (0 < 2 ^ k) by (apply Z.pow_pos_nonneg; lia).
  destruct (Zdigits2_bounds m ltac:(lia)) as [_ Hu].
  apply (Z.pow_lt_mono_r_iff 2); [lia | apply Zdigits2_nonneg | lia].
Qed.

(** A number below [2 ^ k] has at most [k] binary digits. *)
Lemma Zdigits2_below m k : 0 <= k -> 0 <= m < 2 ^ k -> Zdigits2 m <= k.
Proof.
  intros Hk Hm.
  destruct (Z.eq_dec m 0) as [-> | Hm0]; [cbn; lia |].
  destruct (Zdigits2_bounds m ltac:(lia)) as [Hl _].
  assert (Zdigits2 m - 1 < k); [| lia].
  apply (Z.pow_lt_mono_r_iff 2); lia.
Qed.

Lemma Zdigits2_mono a b : 0 <= a <= b -> Zdigits2 a <= Zdigits2 b.
Proof.
  intros H.
  destruct (Z.eq_dec b 0) as [-> | Hb]; [replace a with 0 by lia; lia |].
  apply Zdigits2_below; [apply Zdigits2_nonneg |].
  pose proof (Zdigits2_bounds b ltac:(lia)). lia.
Qed.

Lemma Zdigits2_succ m : 0 <= m -> Zdigits2 (m + 1) <= Zdigits2 m + 1.
Proof.
  intros Hm.
  destruct (Z.eq_dec m 0) as [-> | Hm0]; [cbn; lia |].
  pose proof (Zdigits2_nonneg m).
  apply Zdigits2_below; [lia |].
  pose proof (Zdigits2_bounds m ltac:(lia)) as [_ Hu].
  rewrite Z.pow_add_r by lia. change (2 ^ 1) with 2. lia.
Qed.

(** ** Shifting right *)

Lemma shr_1_digits r :
  0 <= shr_m r ->
  0 <= shr_m (shr_1 r)
  /\ Zdigits2 (shr_m (shr_1 r)) = Z.max 0 (Zdigits2 (shr_m r) - 1).
Proof.
  destruct r as [m b s]. cbn [shr_m]. intros Hm.
  destruct m as [| [p | p |] | p]; cbn [shr_1 shr_m Zdigits2 digits2_pos];
    try rewrite Pos2Z.inj_succ; lia.
Qed.

Lemma iter_shr_1_digits n : forall r,
  0 <= shr_m r ->
  0 <= shr_m (iter_pos shr_1 n r)
  /\ Zdigits2 (shr_m (iter_pos shr_1 n r))
     = Z.max 0 (Zdigits2 (shr_m r) - Zpos n).
Proof.
  induction n as [n IH | n IH |]; intros r Hr; cbn [iter_pos].
  - destruct (shr_1_digits r Hr) as [H0 E0].
    destruct (IH _ H0) as [H1 E1].
    destruct (IH _ H1) as [H2 E2].
    split; [exact H2 |]. rewrite E2, E1, E0. lia.
  - destruct (IH _ Hr) as [H1 E1].
    destruct (IH _ H1) as [H2 E2].
    split; [exact H2 |]. rewrite E2, E1. lia.
  - apply shr_1_digits. exact Hr.
Qed.

Section Format.

(** The lemmas of this section hold for every precision and exponent
    range. *)

Variables prec emax : Z.

Lemma shr_record_of_loc_m m l : shr_m (shr_record_of_loc m l) = m.
Proof. destruct l as [| []]; reflexivity. Qed.

(** What [shr_fexp] does to the exponent and to the number of digits. *)
Lemma shr_fexp_digits m e l :
  0 <= m ->
  let d := Z.max 0 (fexp prec emax (Zdigits2 m + e) - e) in
  0 <= shr_m (fst (shr_fexp prec emax m e l))
  /\ Zdigits2 (shr_m (fst (shr_fexp prec emax m e l)))
     = Z.max 0 (Zdigits2 m - d)
  /\ snd (shr_fexp prec emax m e l) = e + d.
Proof.
  intros Hm d. unfold shr_fexp, shr. fold (fexp prec emax).
  subst d.
  destruct (fexp prec emax (Zdigits2 m + e) - e) as [| n | n] eqn:E;
    cbn [fst snd].
  - rewrite shr_record_of_loc_m. pose proof (Zdigits2_nonneg m). lia.
  - destruct (iter_shr_1_digits n (shr_record_of_loc m l)) as [H0 E0].
    { rewrite shr_record_of_loc_m. exact Hm. }
    rewrite shr_record_of_loc_m in E0. split; [exact H0 |].
    split; [rewrite E0 |]; lia.
  - rewrite shr_record_of_loc_m. pose proof (Zdigits2_nonneg m). lia.
Qed.

Lemma round_nearest_even_cases m l :
  round_nearest_even m l = m \/ round_nearest_even m l = m + 1.
Proof.
  destruct l as [| []]; cbn [round_nearest_even]; auto.
  destruct (Z.even m); auto.
Qed.

(** The rounding step returns a number of the format, provided its input
    is not finer than the format allows. *)
Lemma binary_round_aux_valid sx mx ex lx :
  0 <= mx ->
  ex <= fexp prec emax (Zdigits2 mx + ex) ->
  valid_binary prec emax (binary_round_aux prec emax sx mx ex lx) = true.
Proof.
  intros Hmx Hex. unfold binary_round_aux.
  destruct (shr_fexp_digits mx ex lx Hmx) as (H1 & D1 & E1).
  destruct (shr_fexp prec emax mx ex lx) as [r1 e1]. cbn [fst snd] in H1, D1, E1.
  set (m2 := round_nearest_even (shr_m r1) (loc_of_shr_record r1)).
  assert (Hm2 : 0 <= m2 /\ Zdigits2 (shr_m r1) <= Zdigits2 m2
                /\ Zdigits2 m2 <= Zdigits2 (shr_m r1) + 1).
  { destruct (round_nearest_even_cases (shr_m r1) (loc_of_shr_record r1))
      as [C | C]; fold m2 in C; rewrite C.
    - lia.
    - split; [lia |]. split; [apply Zdigits2_mono; lia | apply Zdigits2_succ; lia]. }
  destruct Hm2 as (H2 & L2 & U2).
  destruct (shr_fexp_digits m2 e1 loc_Exact H2) as (H3 & D3 & E3).
  destruct (shr_fexp prec emax m2 e1 loc_Exact) as [r2 e2].
  cbn [fst snd] in H3, D3, E3.
  destruct (shr_m r2) as [| m3 | m3] eqn:M3; [reflexivity | | lia].
  destruct (e2 <=? emax - prec) eqn:B; [| reflexivity].
  cbn [valid_binary]. unfold bounded. rewrite B, andb_true_r.
  unfold canonical_mantissa. apply Z.eqb_eq.
  cbn [Zdigits2] in D3.
  unfold fexp in *. lia.
Qed.


Lemma digits2_pos_iter_xO mx d :
  Zpos (digits2_pos (Pos.iter xO mx d)) = Zpos (digits2_pos mx) + Zpos d.
Proof.
  induction d as [| d IH] using Pos.peano_ind.
  - cbn [Pos.iter digits2_pos]. rewrite Pos2Z.inj_succ. lia.
  - rewrite Pos.iter_succ. cbn [digits2_pos].
    rewrite !Pos2Z.inj_succ, IH. lia.
Qed.

Lemma binary_round_valid sx mx ex :
  valid_binary prec emax (binary_round prec emax sx mx ex) = true.
Proof.
  unfold binary_round, shl_align.
  destruct (fexp prec emax (Zpos (digits2_pos mx) + ex) - ex) as [| d | d] eqn:E;
    apply binary_round_aux_valid; cbn [Zdigits2]; try lia.
  rewrite digits2_pos_iter_xO.
    replace (Zpos (digits2_pos mx) + Zpos d
             + fexp prec emax (Zpos (digits2_pos mx) + ex))
      with (Zpos (digits2_pos mx) + ex) by lia.
    lia.
Qed.

Lemma binary_normalize_valid m e szero :
  valid_binary prec emax (binary_normalize prec emax m e szero) = true.
Proof.
  destruct m; cbn [binary_normalize];
    [reflexivity | apply binary_round_valid | apply binary_round_valid].
Qed.

Lemma SFdiv_core_binary_fine mx ex my ey :
  let '(q, e, _) := SFdiv_core_binary prec emax (Zpos mx) ex (Zpos my) ey in
  0 <= q /\ e <= fexp prec emax (Zdigits2 q + e).
Proof.
  unfold SFdiv_core_binary. cbn [Zdigits2].
  set (d1 := Zpos (digits2_pos mx)). set (d2 := Zpos (digits2_pos my)).
  set (e' := Z.min (fexp prec emax (d1 + ex - (d2 + ey))) (ex - ey)).
  set (s := ex - ey - e').
  assert (Hs : 0 <= s) by (unfold s, e'; lia).
  set (m' := match s with
             | 0 => Zpos mx
             | Zpos _ => Z.shiftl (Zpos mx) s
             | Zneg _ => 0
             end).
  assert (Hm' : m' = Zpos mx * 2 ^ s).
  { unfold m'. destruct s as [| p | p] eqn:Es; [cbn; lia | | lia].
    apply Z.shiftl_mul_pow2. lia. }
  destruct (Z.div_eucl m' (Zpos my)) as [q r] eqn:E.
  assert (Hq : q = m' / Zpos my) by (unfold Z.div; rewrite E; reflexivity).
  assert (H2s : 0 < 2 ^ s) by (apply Z.pow_pos_nonneg; lia).
  assert (Hq0 : 0 <= q) by (rewrite Hq; apply Z.div_pos; nia).
  split; [exact Hq0 |].
  assert (Hd : d1 + s - d2 <= Zdigits2 q).
  { pose proof (Zdigits2_nonneg q).
    destruct (Z_lt_le_dec (d1 + s - 1 - d2) 0) as [Hk | Hk]; [lia |].
    assert (d1 + s - 1 - d2 < Zdigits2 q); [| lia].
    apply Zdigits2_above; [exact Hk |].
    rewrite Hq. apply Z.div_le_lower_bound; [lia |].
    pose proof (digits2_pos_bounds mx) as [Hl _]. fold d1 in Hl.
    pose proof (digits2_pos_bounds my) as [_ Hu]. fold d2 in Hu.
    assert (Hp : 2 ^ (d1 + s - 1 - d2) * 2 ^ d2 = 2 ^ (d1 - 1) * 2 ^ s).
    { rewrite <- !Z.pow_add_r by lia. f_equal. lia. }
    assert (0 < 2 ^ (d1 + s - 1 - d2)) by (apply Z.pow_pos_nonneg; lia).
    rewrite Hm'. nia. }
  unfold fexp in *. lia.
Qed.

Lemma SFdiv_valid x y : valid_binary prec emax (SFdiv prec emax x y) = true.
Proof.
  destruct x as [sx | sx | | sx mx ex], y as [sy | sy | | sy my ey];
    try reflexivity.
  cbn [SFdiv].
  pose proof (SFdiv_core_binary_fine mx ex my ey) as H.
  destruct (SFdiv_core_binary prec emax (Zpos mx) ex (Zpos my) ey)
    as [[q e] l].
  destruct H as [Hq He]. apply binary_round_aux_valid; assumption.
Qed.

End Format.

(** The conversion of a [double] to [float] returns a [float]. *)
Lemma to_f32_valid x : valid_binary F32.prec F32.emax (F64.to_f32 x) = true.
Proof.
  destruct x as [s | s | | s mx ex]; try reflexivity.
  apply binary_normalize_valid.
Qed.

Lemma decode_Pressure_float m meas dig t_fine result :
  valid_binary F32.prec F32.emax (pressure result) = true ->
  exists r,
    decode_Pressure m meas dig t_fine result = Some r
    /\ valid_binary F32.prec F32.emax (pressure r) = true
    /\ temp r = temp result /\ humidity r = humidity result.
Proof.
  intros Hv. unfold decode_Pressure. cbv zeta.
  match goal with
  | |- context [negb (?v =? 0)] => destruct (v =? 0) eqn:E
  end; cbn [negb].
  - exists result. repeat split. exact Hv.
  - unfold Int.div64 at 1. rewrite E.
    eexists. split; [reflexivity |].
    cbn [set_pressure pressure temp humidity].
    split; [apply to_f32_valid | split; reflexivity].
Qed.

(** C9, as stated, fails: on the sample data the temperature member is the
    24-bit number 12294554 * 2^-19, while the 64-bit quotient of T = 2345
    by 100.0 is 6600588203864883 * 2^-48, a different number, which no
    [float] member can hold. *)
Lemma Measurement_members_are_not_float64 :
  exists r,
    decode static_memory calibration_ptr measurement_ptr = Some r
    /\ temp r = S754_finite false 12294554 (-19)
    /\ F64.div (F64.of_Z 2345) (F64.of_Z 100)
       = S754_finite false 6600588203864883 (-48)
    /\ ~ (float_value (temp r)
          == float_value (F64.div (F64.of_Z 2345) (F64.of_Z 100)))%Q
    /\ valid_binary F32.prec F32.emax (F64.div (F64.of_Z 2345) (F64.of_Z 100))
       = false.
Proof.
  eexists. split; [vm_compute; reflexivity |].
  split; [vm_compute; reflexivity |].
  split; [vm_compute; reflexivity |].
  split; [| vm_compute; reflexivity].
  vm_compute. discriminate.
Qed.

(** C9, amended.  The three members of the measurement returned by
    [decode] are 32-bit floating-point numbers (binary32: 24 bits of
    precision, exponents up to 128), for every input. *)
Theorem Measurement_members_are_float32 :
  forall (m : memory) (cal meas : ptr),
    exists r,
      decode m cal meas = Some r
      /\ valid_binary 24 128 (pressure r) = true
      /\ valid_binary 24 128 (temp r) = true
      /\ valid_binary 24 128 (humidity r) = true.
Proof.
  intros m cal meas. rewrite decode_stages.
  match goal with
  | |- context [decode_Pressure ?a ?b ?c ?d ?e] =>
      destruct (decode_Pressure_float a b c d e) as (r & Hr & Hp & Ht & Hh)
  end; [rewrite pressure_set_temp; reflexivity |].
  exists r. split; [exact Hr |]. split; [exact Hp |].
  rewrite Ht, Hh, temp_set_temp, humidity_set_temp.
  split; [apply (SFdiv_valid 24 128) | reflexivity].
Qed.

(** * Further properties of the decoders *)

Lemma byte_of_Z_load b k : byte_of_Z (Z.of_N (Byte.to_N b) + 256 * k) = b.
Proof.
  unfold byte_of_Z.
  pose proof (Byte.to_N_bounded b) as Hb.
  replace ((Z.of_N (Byte.to_N b) + 256 * k) mod 256)
    with (Z.of_N (Byte.to_N b)).
  - rewrite N2Z.id, Byte.of_to_N. reflexivity.
  - apply Z.mod_unique with (q := k); lia.
Qed.

Lemma u16_div_256 lo hi : 0 <= lo < 256 -> Spec.u16 lo hi / 256 = hi.
Proof.
  intros H. unfold Spec.u16. symmetry.
  apply Z.div_unique with (r := lo); lia.
Qed.

Lemma s16_mod lo hi :
  0 <= lo < 256 -> 0 <= hi < 256 ->
  Spec.s16 lo hi mod 65536 = Spec.u16 lo hi.
Proof.
  intros Hlo Hhi. unfold Spec.s16.
  assert (Hu : 0 <= Spec.u16 lo hi < 65536) by (unfold Spec.u16; lia).
  destruct (Spec.u16 lo hi <? 32768).
  - apply Z.mod_small. exact Hu.
  - symmetry. apply Z.mod_unique with (q := -1); lia.
Qed.

(** X1.  [decodeU16LE] is [low + 256 * high], between 0 and 65535: the
    narrowing to [uint16_t] loses nothing; and the two little-endian bytes of
    any unsigned 16-bit integer decode to it. *)
Theorem decodeU16LE_round_trip :
  forall (m : memory) (data : ptr) (u : Z),
    0 <= u <= 65535 ->
    decodeU16LE m data = load m data 0 + 256 * load m data 1
    /\ 0 <= decodeU16LE m data <= 65535
    /\ decodeU16LE (place data (uint16_bytes_le u) m) data = u.
Proof.
  intros m data u Hu.
  split; [apply decodeU16LE_u16 |].
  split; [pose proof (decodeU16LE_range m data); lia |].
  rewrite decodeU16LE_u16.
  rewrite !load_place by (cbn [length uint16_bytes_le]; lia).
  change (Z.to_nat 0) with 0%nat. change (Z.to_nat 1) with 1%nat.
  cbn [nth uint16_bytes_le]. rewrite !byte_of_Z_value. unfold Spec.u16.
  rewrite (Z.mod_small (u / 256))
    by (split; [apply Z.div_pos; lia | apply Z.div_lt_upper_bound; lia]).
  pose proof (Z.div_mod u 256 ltac:(lia)). lia.
Qed.

Lemma decodeU16LE_round_trip_witness :
  0 <= 36257 <= 65535
  /\ decodeU16LE zero_memory 0 = load zero_memory 0 0 + 256 * load zero_memory 0 1
  /\ 0 <= decodeU16LE zero_memory 0 <= 65535
  /\ decodeU16LE (place 0 (uint16_bytes_le 36257) zero_memory) 0 = 36257.
Proof.
  split; [lia |]. apply (decodeU16LE_round_trip zero_memory 0 36257). lia.
Defined.

Lemma uint16_bytes_of_decode m data :
  uint16_bytes_le (decodeU16LE m data) = [m data; m (data + 1)].
Proof.
  pose proof (load_range m data 0) as H0.
  unfold uint16_bytes_le. rewrite decodeU16LE_u16.
  rewrite u16_div_256 by exact H0. unfold Spec.u16, load.
  rewrite byte_of_Z_load, Z.add_0_r.
  replace (Z.of_N (Byte.to_N (m (data + 1))))
    with (Z.of_N (Byte.to_N (m (data + 1))) + 256 * 0) by lia.
  rewrite byte_of_Z_load. reflexivity.
Qed.

Lemma int16_bytes_of_decode m data :
  int16_bytes_le (decodeS16LE m data) = [m data; m (data + 1)].
Proof.
  pose proof (load_range m data 0) as H0.
  pose proof (load_range m data 1) as H1.
  rewrite <- uint16_bytes_of_decode.
  unfold int16_bytes_le, uint16_bytes_le. cbv zeta.
  rewrite decodeS16LE_s16, s16_mod, decodeU16LE_u16 by assumption.
  reflexivity.
Qed.

(** X2.  Both 16-bit decoders are lossless: encoding the decoded value
    gives back the two bytes behind the pointer, for every memory. *)
Theorem decode16_then_encode :
  forall (m : memory) (data : ptr),
    uint16_bytes_le (decodeU16LE m data) = [m data; m (data + 1)]
    /\ int16_bytes_le (decodeS16LE m data) = [m data; m (data + 1)].
Proof.
  intros m data.
  split; [apply uint16_bytes_of_decode | apply int16_bytes_of_decode].
Qed.

(** X3.  The signed decoder is the unsigned one with the top bit given
    weight -32768: the two agree modulo 65536, the result is negative
    exactly when the second byte is 0x80 or more, and then it is the
    unsigned value minus 65536. *)
Theorem decodeS16LE_sign :
  forall (m : memory) (data : ptr),
    (decodeS16LE m data < 0 <-> 128 <= load m data 1)
    /\ decodeS16LE m data
       = decodeU16LE m data - (if 128 <=? load m data 1 then 65536 else 0)
    /\ decodeS16LE m data mod 65536 = decodeU16LE m data
    /\ -32768 <= decodeS16LE m data <= 32767.
Proof.
  intros m data.
  pose proof (load_range m data 0) as H0.
  pose proof (load_range m data 1) as H1.
  rewrite decodeS16LE_s16, decodeU16LE_u16.
  split; [| split; [| split]].
  - unfold Spec.s16, Spec.u16.
    destruct (load m data 0 + 256 * load m data 1 <? 32768) eqn:C;
      [apply Z.ltb_lt in C | apply Z.ltb_ge in C]; lia.
  - unfold Spec.s16, Spec.u16.
    destruct (load m data 0 + 256 * load m data 1 <? 32768) eqn:C;
      [apply Z.ltb_lt in C | apply Z.ltb_ge in C];
      destruct (128 <=? load m data 1) eqn:D;
      [apply Z.leb_le in D | apply Z.leb_gt in D
      | apply Z.leb_le in D | apply Z.leb_gt in D]; lia.
  - apply s16_mod; assumption.
  - unfold Spec.s16, Spec.u16.
    destruct (load m data 0 + 256 * load m data 1 <? 32768) eqn:C;
      [apply Z.ltb_lt in C | apply Z.ltb_ge in C]; lia.
Qed.

Lemma sample20_sum b0 b1 b2 :
  0 <= b0 -> 0 <= b1 < 256 -> 0 <= b2 < 256 ->
  Spec.sample20 b0 b1 b2 = 4096 * b0 + 16 * b1 + b2 / 16.
Proof.
  intros H0 H1 H2. unfold Spec.sample20.
  assert (Hc : 0 <= b2 / 16 < 16)
    by (split; [apply Z.div_pos; lia | apply Z.div_lt_upper_bound; lia]).
  rewrite Z.shiftr_div_pow2 by lia. change (2 ^ 4) with 16.
  rewrite (Z.lor_comm (Z.shiftl b0 12)).
  rewrite (Z.shiftl_mul_pow2 b1) by lia.
  rewrite (lor_shiftl_add (b1 * 2 ^ 4) b0 12) by lia.
  replace (b1 * 2 ^ 4 + b0 * 2 ^ 12) with (Z.shiftl (b1 + 256 * b0) 4)
    by (rewrite Z.shiftl_mul_pow2 by lia; lia).
  rewrite Z.lor_comm, lor_shiftl_add by (change (2 ^ 4) with 16; lia).
  lia.
Qed.

(** X4.  [decode20bit] is [4096 * b0 + 16 * b1 + b2 / 16]; it keeps the
    first two bytes and the high nibble of the third, which can be read
    back from the result, and drops the low nibble of the third byte. *)
Theorem decode20bit_fields :
  forall (m : memory) (data : ptr),
    decode20bit m data
    = 4096 * load m data 0 + 16 * load m data 1 + load m data 2 / 16
    /\ decode20bit m data / 4096 = load m data 0
    /\ (decode20bit m data / 16) mod 256 = load m data 1
    /\ decode20bit m data mod 16 = load m data 2 / 16.
Proof.
  intros m data.
  pose proof (load_range m data 0) as H0.
  pose proof (load_range m data 1) as H1.
  pose proof (load_range m data 2) as H2.
  assert (Hc : 0 <= load m data 2 / 16 < 16)
    by (split; [apply Z.div_pos; lia | apply Z.div_lt_upper_bound; lia]).
  rewrite (proj1 (decode20bit_sample20 m data)), sample20_sum by lia.
  split; [reflexivity |]. split; [| split].
  - symmetry.
    apply Z.div_unique with (r := 16 * load m data 1 + load m data 2 / 16); lia.
  - replace ((4096 * load m data 0 + 16 * load m data 1 + load m data 2 / 16)
             / 16) with (256 * load m data 0 + load m data 1)
      by (apply Z.div_unique with (r := load m data 2 / 16); lia).
    symmetry. apply Z.mod_unique with (q := load m data 0); lia.
  - symmetry.
    apply Z.mod_unique with (q := 256 * load m data 0 + load m data 1); lia.
Qed.

(** * Further properties of the parser and of the engine *)

Lemma decodeU16LE_inj m1 p1 m2 p2 :
  decodeU16LE m1 p1 = decodeU16LE m2 p2 ->
  m1 p1 = m2 p2 /\ m1 (p1 + 1) = m2 (p2 + 1).
Proof.
  intros H. apply (f_equal uint16_bytes_le) in H.
  rewrite !uint16_bytes_of_decode in H.
  injection H as Ha Hb. split; assumption.
Qed.

Lemma decodeS16LE_inj m1 p1 m2 p2 :
  decodeS16LE m1 p1 = decodeS16LE m2 p2 ->
  m1 p1 = m2 p2 /\ m1 (p1 + 1) = m2 (p2 + 1).
Proof.
  intros H. apply (f_equal int16_bytes_le) in H.
  rewrite !int16_bytes_of_decode in H.
  injection H as Ha Hb. split; assumption.
Qed.

Lemma load_inj m1 p1 m2 p2 i :
  load m1 p1 i = load m2 p2 i -> m1 (p1 + i) = m2 (p2 + i).
Proof.
  unfold load. intros H. apply N2Z.inj in H.
  pose proof (Byte.of_to_N (m1 (p1 + i))) as E1.
  pose proof (Byte.of_to_N (m2 (p2 + i))) as E2.
  congruence.
Qed.

(** The word decoded at offset [k] fixes the bytes at [k] and [k + 1]. *)
Lemma word_bytes_eq (m1 : memory) p1 (m2 : memory) p2 k :
  m1 (p1 + k) = m2 (p2 + k) /\ m1 (p1 + k + 1) = m2 (p2 + k + 1) ->
  m1 (p1 + k) = m2 (p2 + k) /\ m1 (p1 + (k + 1)) = m2 (p2 + (k + 1)).
Proof. rewrite !Z.add_assoc. exact (fun H => H). Qed.

(** X6.  [decodeCalibration] is lossless on the 25 bytes it reads: two
    calls return the same calibration exactly when the bytes at offsets
    0..23 and 25 are the same; the byte at offset 24 never matters. *)
Theorem decodeCalibration_lossless :
  forall (m1 : memory) (p1 : ptr) (m2 : memory) (p2 : ptr),
    decodeCalibration m1 p1 = decodeCalibration m2 p2
    <-> (forall i, 0 <= i < 26 -> i <> 24 -> m1 (p1 + i) = m2 (p2 + i)).
Proof.
  intros m1 p1 m2 p2. split.
  - intros H.
    pose proof (f_equal T1 H) as E0. pose proof (f_equal T2 H) as E2.
    pose proof (f_equal T3 H) as E4. pose proof (f_equal P1 H) as E6.
    pose proof (f_equal P2 H) as E8. pose proof (f_equal P3 H) as E10.
    pose proof (f_equal P4 H) as E12. pose proof (f_equal P5 H) as E14.
    pose proof (f_equal P6 H) as E16. pose proof (f_equal P7 H) as E18.
    pose proof (f_equal P8 H) as E20. pose proof (f_equal P9 H) as E22.
    pose proof (f_equal H1 H) as E25.
    cbn [decodeCalibration T1 T2 T3 P1 P2 P3 P4 P5 P6 P7 P8 P9 H1] in *.
    apply decodeU16LE_inj in E0. apply decodeU16LE_inj in E6.
    apply decodeS16LE_inj, word_bytes_eq in E2.
    apply decodeS16LE_inj, word_bytes_eq in E4.
    apply word_bytes_eq in E6.
    apply decodeS16LE_inj, word_bytes_eq in E8.
    apply decodeS16LE_inj, word_bytes_eq in E10.
    apply decodeS16LE_inj, word_bytes_eq in E12.
    apply decodeS16LE_inj, word_bytes_eq in E14.
    apply decodeS16LE_inj, word_bytes_eq in E16.
    apply decodeS16LE_inj, word_bytes_eq in E18.
    apply decodeS16LE_inj, word_bytes_eq in E20.
    apply decodeS16LE_inj, word_bytes_eq in E22.
    apply load_inj in E25.
    cbn [Z.add Pos.add Pos.succ] in *.
    intros i Hi Hn.
    assert (C : i = 0 \/ i = 1 \/ i = 2 \/ i = 3 \/ i = 4 \/ i = 5 \/ i = 6
                \/ i = 7 \/ i = 8 \/ i = 9 \/ i = 10 \/ i = 11 \/ i = 12
                \/ i = 13 \/ i = 14 \/ i = 15 \/ i = 16 \/ i = 17 \/ i = 18
                \/ i = 19 \/ i = 20 \/ i = 21 \/ i = 22 \/ i = 23 \/ i = 25)
      by lia.
    repeat (destruct C as [-> | C]); try subst i;
      rewrite ?Z.add_0_r; intuition congruence.
  - intros H. rewrite !decodeCalibration_offsets.
    unfold load. rewrite !H by lia. reflexivity.
Qed.

Lemma decode_same_samples m1 cal1 meas1 m2 cal2 meas2 :
  same_bytes m1 cal1 m2 cal2 24 ->
  decode20bit m1 (meas1 + 3) = decode20bit m2 (meas2 + 3) ->
  decode20bit m1 (meas1 + 0) = decode20bit m2 (meas2 + 0) ->
  decode m1 cal1 meas1 = decode m2 cal2 meas2.
Proof.
  intros Hc H3 H0.
  unfold decode, decode_Temperature, decode_Pressure. cbv zeta.
  rewrite !decodeCalibration_offsets.
  cbn [T1 T2 T3 P1 P2 P3 P4 P5 P6 P7 P8 P9].
  rewrite !(load_same m1 cal1 m2 cal2 24) by (assumption || lia).
  rewrite H3, H0. reflexivity.
Qed.

Lemma decode20bit_same_nibble m1 p1 m2 p2 :
  m1 (p1 + 0) = m2 (p2 + 0) ->
  m1 (p1 + 1) = m2 (p2 + 1) ->
  load m1 p1 2 / 16 = load m2 p2 2 / 16 ->
  decode20bit m1 p1 = decode20bit m2 p2.
Proof.
  intros H0 H1 H2.
  rewrite (proj1 (decode20bit_sample20 m1 p1)).
  rewrite (proj1 (decode20bit_sample20 m2 p2)).
  unfold Spec.sample20. rewrite !(Z.shiftr_div_pow2 _ 4) by lia.
  change (2 ^ 4) with 16. rewrite H2.
  unfold load. rewrite H0, H1. reflexivity.
Qed.

(** X5.  The low nibbles of measurement bytes 2 and 5 never reach the
    result: two calls that agree on calibration bytes 0..23, on measurement
    bytes 0, 1, 3, 4 and on the high nibbles of measurement bytes 2 and 5
    return the same measurement. *)
Theorem decode_ignores_low_nibbles :
  forall (m1 : memory) (cal1 meas1 : ptr) (m2 : memory) (cal2 meas2 : ptr),
    same_bytes m1 cal1 m2 cal2 24 ->
    same_bytes m1 meas1 m2 meas2 2 ->
    same_bytes m1 (meas1 + 3) m2 (meas2 + 3) 2 ->
    load m1 meas1 2 / 16 = load m2 meas2 2 / 16 ->
    load m1 meas1 5 / 16 = load m2 meas2 5 / 16 ->
    decode m1 cal1 meas1 = decode m2 cal2 meas2.
Proof.
  intros m1 cal1 meas1 m2 cal2 meas2 Hc Hp Ht Hn2 Hn5.
  apply decode_same_samples; [exact Hc | |].
  - apply decode20bit_same_nibble.
    + apply Ht. lia.
    + apply Ht. lia.
    + rewrite !load_shift. exact Hn5.
  - apply decode20bit_same_nibble.
    + rewrite !Z.add_0_r, <- (Z.add_0_r meas1), <- (Z.add_0_r meas2).
      apply Hp. lia.
    + rewrite !Z.add_0_r. apply Hp. lia.
    + rewrite !load_shift. exact Hn2.
Qed.

(** The sample measurement with the low nibbles of bytes 2 and 5 set. *)
Lemma decode_ignores_low_nibbles_witness :
  same_bytes static_memory calibration_ptr static_memory calibration_ptr 24
  /\ decode static_memory calibration_ptr measurement_ptr
     = decode (place (measurement_ptr + 2) [x0f]%byte
                 (place (measurement_ptr + 5) [x0a]%byte static_memory))
         calibration_ptr measurement_ptr.
Proof.
  split; [intros i Hi; reflexivity |].
  apply (decode_ignores_low_nibbles
           static_memory calibration_ptr measurement_ptr
           (place (measurement_ptr + 2) [x0f]%byte
              (place (measurement_ptr + 5) [x0a]%byte static_memory))
           calibration_ptr measurement_ptr).
  - apply (same_bytes_check _ _ _ _ 24). vm_compute. reflexivity.
  - apply (same_bytes_check _ _ _ _ 2). vm_compute. reflexivity.
  - apply (same_bytes_check _ _ _ _ 2). vm_compute. reflexivity.
  - vm_compute. reflexivity.
  - vm_compute. reflexivity.
Defined.

Lemma t_fine_of_same m1 cal1 meas1 m2 cal2 meas2 :
  same_bytes m1 cal1 m2 cal2 6 ->
  same_bytes m1 (meas1 + 3) m2 (meas2 + 3) 3 ->
  t_fine_of m1 cal1 meas1 = t_fine_of m2 cal2 meas2.
Proof.
  intros Hc Hm. unfold t_fine_of. cbv zeta.
  rewrite !decodeCalibration_offsets. cbn [T1 T2 T3].
  rewrite !(load_same m1 cal1 m2 cal2 6) by (assumption || lia).
  replace (load m1 meas1 3) with (load m1 (meas1 + 3) 0)
    by (rewrite load_shift; reflexivity).
  replace (load m1 meas1 4) with (load m1 (meas1 + 3) 1)
    by (rewrite load_shift; reflexivity).
  replace (load m1 meas1 5) with (load m1 (meas1 + 3) 2)
    by (rewrite load_shift; reflexivity).
  rewrite !(load_same m1 (meas1 + 3) m2 (meas2 + 3) 3) by (assumption || lia).
  rewrite !load_shift. reflexivity.
Qed.

Lemma decode_temp m cal meas :
  exists r,
    decode m cal meas = Some r
    /\ temp r = F32.div (F32.of_Z (Spec.T_of (t_fine_of m cal meas)))
                        (F32.of_Z 100).
Proof.
  rewrite decode_stages.
  match goal with
  | |- context [decode_Pressure ?a ?b ?c ?d ?e] =>
      destruct (decode_Pressure_returns a b c d e) as (r & Hr & Ht & _)
  end.
  exists r. rewrite temp_set_temp in Ht. split; [exact Hr | exact Ht].
Qed.

(** X11.  The temperature depends on the three temperature coefficients
    and on the temperature sample only: two calls that agree on calibration
    bytes 0..5 and on measurement bytes 3..5 return the same temperature,
    whatever the pressure coefficients and the pressure sample are. *)
Theorem decode_temperature_footprint :
  forall (m1 : memory) (cal1 meas1 : ptr) (m2 : memory) (cal2 meas2 : ptr),
    same_bytes m1 cal1 m2 cal2 6 ->
    same_bytes m1 (meas1 + 3) m2 (meas2 + 3) 3 ->
    exists r1 r2,
      decode m1 cal1 meas1 = Some r1
      /\ decode m2 cal2 meas2 = Some r2
      /\ temp r1 = temp r2.
Proof.
  intros m1 cal1 meas1 m2 cal2 meas2 Hc Hm.
  destruct (decode_temp m1 cal1 meas1) as (r1 & E1 & T1).
  destruct (decode_temp m2 cal2 meas2) as (r2 & E2 & T2).
  exists r1, r2. split; [exact E1 |]. split; [exact E2 |].
  rewrite T1, T2, (t_fine_of_same m1 cal1 meas1 m2 cal2 meas2 Hc Hm).
  reflexivity.
Qed.

(** The sample data against a memory that keeps only the temperature
    bytes. *)
Lemma decode_temperature_footprint_witness :
  same_bytes static_memory calibration_ptr
    (place 0 (firstn 6 calibration) (fun _ => xff)) 0 6
  /\ same_bytes static_memory (measurement_ptr + 3)
       (place 103 [x7e; x4c; x00]%byte (fun _ => xff)) (100 + 3) 3
  /\ exists r1 r2,
       decode static_memory calibration_ptr measurement_ptr = Some r1
       /\ decode (place 103 [x7e; x4c; x00]%byte
                    (place 0 (firstn 6 calibration) (fun _ => xff))) 0 100
          = Some r2
       /\ temp r1 = temp r2.
Proof.
  split; [apply (same_bytes_check _ _ _ _ 6); vm_compute; reflexivity |].
  split; [apply (same_bytes_check _ _ _ _ 3); vm_compute; reflexivity |].
  apply (decode_temperature_footprint
           static_memory calibration_ptr measurement_ptr
           (place 103 [x7e; x4c; x00]%byte
              (place 0 (firstn 6 calibration) (fun _ => xff))) 0 100).
  - apply (same_bytes_check _ _ _ _ 6). vm_compute. reflexivity.
  - apply (same_bytes_check _ _ _ _ 3). vm_compute. reflexivity.
Defined.

Lemma place_inside base bytes m i :
  0 <= i < Z.of_nat (length bytes) ->
  place base bytes m (base + i) = nth (Z.to_nat i) bytes x00.
Proof.
  intros Hi. unfold place.
  replace ((base <=? base + i) && (base + i <? base + Z.of_nat (length bytes)))
    with true.
  - replace (base + i - base) with i by lia. reflexivity.
  - symmetry. apply andb_true_iff. split; [apply Z.leb_le | apply Z.ltb_lt]; lia.
Qed.

Lemma place_outside base bytes m a :
  a < base \/ base + Z.of_nat (length bytes) <= a ->
  place base bytes m a = m a.
Proof.
  intros Ha. unfold place.
  destruct (base <=? a) eqn:C1; [| reflexivity].
  destruct (a <? base + Z.of_nat (length bytes)) eqn:C2; [| reflexivity].
  apply Z.leb_le in C1. apply Z.ltb_lt in C2. lia.
Qed.

(** X12.  The call in [main] reads no byte outside the two static arrays:
    wherever the two arrays lie, as long as they do not overlap, and
    whatever the rest of the memory holds, [decode] on them returns
    pressure 12725014 * 2^-7 (99414.17 Pa), temperature 12294554 * 2^-19
    (23.45 C) and humidity +0.0. *)
Theorem main_reads_only_its_arrays :
  forall (m : memory) (cal meas : ptr),
    cal + 26 <= meas \/ meas + 8 <= cal ->
    decode (place cal calibration (place meas measurement m)) cal meas
    = Some {| pressure := S754_finite false 12725014 (-7);
              temp := S754_finite false 12294554 (-19);
              humidity := S754_zero false |}.
Proof.
  intros m cal meas Hsep.
  transitivity (decode static_memory calibration_ptr measurement_ptr);
    [| vm_compute; reflexivity].
  apply decode_same.
  - intros i Hi. unfold static_memory.
    rewrite !place_inside by (cbn [length calibration]; lia). reflexivity.
  - intros i Hi. unfold static_memory.
    rewrite (place_outside cal) by (cbn [length calibration]; lia).
    rewrite (place_outside calibration_ptr)
      by (cbn [length calibration]; unfold calibration_ptr, measurement_ptr; lia).
    rewrite !place_inside by (cbn [length measurement]; lia). reflexivity.
Qed.

Lemma main_reads_only_its_arrays_witness :
  (0 + 26 <= 100 \/ 100 + 8 <= 0)
  /\ decode other_memory 0 100
     = Some {| pressure := S754_finite false 12725014 (-7);
               temp := S754_finite false 12294554 (-19);
               humidity := S754_zero false |}.
Proof.
  split; [left; lia |].
  apply (main_reads_only_its_arrays (fun _ => xff) 0 100). left. lia.
Defined.

(** * Further properties of the floating-point results *)

(** ** Magnitude of the results *)

Section Magnitude.

Variables prec emax : Z.
Hypothesis prec_nonneg : 0 <= prec.
Hypothesis emax_large : 3 <= 2 * emax.

Lemma binary_round_aux_finite sx mx ex lx k :
  0 <= mx ->
  ex <= fexp prec emax (Zdigits2 mx + ex) ->
  Z.max (Zdigits2 mx + ex) (emin prec emax) + 1 <= k -> k <= emax ->
  finite_below k (binary_round_aux prec emax sx mx ex lx).
Proof.
  intros Hmx Hex Hk Hkmax. unfold binary_round_aux.
  destruct (shr_fexp_digits prec emax mx ex lx Hmx) as (H1 & D1 & E1).
  destruct (shr_fexp prec emax mx ex lx) as [r1 e1]. cbn [fst snd] in H1, D1, E1.
  set (m2 := round_nearest_even (shr_m r1) (loc_of_shr_record r1)).
  assert (Hm2 : 0 <= m2 /\ Zdigits2 (shr_m r1) <= Zdigits2 m2
                /\ Zdigits2 m2 <= Zdigits2 (shr_m r1) + 1).
  { destruct (round_nearest_even_cases (shr_m r1) (loc_of_shr_record r1))
      as [C | C]; fold m2 in C; rewrite C.
    - lia.
    - split; [lia |]. split; [apply Zdigits2_mono; lia | apply Zdigits2_succ; lia]. }
  destruct Hm2 as (H2 & L2 & U2).
  destruct (shr_fexp_digits prec emax m2 e1 loc_Exact H2) as (H3 & D3 & E3).
  destruct (shr_fexp prec emax m2 e1 loc_Exact) as [r2 e2].
  cbn [fst snd] in H3, D3, E3.
  destruct (shr_m r2) as [| m3 | m3] eqn:M3; [exact I | | lia].
  cbn [Zdigits2] in D3.
  destruct (e2 <=? emax - prec) eqn:B;
    [apply Z.leb_le in B | apply Z.leb_gt in B]; cbn [finite_below];
    unfold fexp, emin in *; lia.
Qed.

Lemma binary_round_finite sx mx ex k :
  Z.max (Zpos (digits2_pos mx) + ex) (emin prec emax) + 1 <= k -> k <= emax ->
  finite_below k (binary_round prec emax sx mx ex).
Proof.
  intros Hk Hkmax. unfold binary_round, shl_align.
  destruct (fexp prec emax (Zpos (digits2_pos mx) + ex) - ex) as [| d | d] eqn:E;
    apply binary_round_aux_finite; cbn [Zdigits2];
    rewrite ?digits2_pos_iter_xO; try lia.
  replace (Zpos (digits2_pos mx) + Zpos d
           + fexp prec emax (Zpos (digits2_pos mx) + ex))
    with (Zpos (digits2_pos mx) + ex) by lia.
  lia.
Qed.

Lemma binary_normalize_finite m e szero k :
  Z.max (Zdigits2 m + e) (emin prec emax) + 1 <= k -> k <= emax ->
  finite_below k (binary_normalize prec emax m e szero).
Proof.
  intros Hk Hkmax.
  destruct m; cbn [binary_normalize];
    [exact I | apply binary_round_finite | apply binary_round_finite];
    assumption.
Qed.

Lemma SFdiv_core_binary_coarse mx ex my ey :
  let '(q, e, _) := SFdiv_core_binary prec emax (Zpos mx) ex (Zpos my) ey in
  Zdigits2 q + e
  <= Z.max (Zpos (digits2_pos mx) + ex - (Zpos (digits2_pos my) + ey) + 1) e
  /\ e <= ex - ey.
Proof.
  unfold SFdiv_core_binary. cbn [Zdigits2].
  set (d1 := Zpos (digits2_pos mx)). set (d2 := Zpos (digits2_pos my)).
  set (e' := Z.min (fexp prec emax (d1 + ex - (d2 + ey))) (ex - ey)).
  set (s := ex - ey - e').
  assert (Hs : 0 <= s) by (unfold s, e'; lia).
  set (m' := match s with
             | 0 => Zpos mx
             | Zpos _ => Z.shiftl (Zpos mx) s
             | Zneg _ => 0
             end).
  assert (Hm' : m' = Zpos mx * 2 ^ s).
  { unfold m'. destruct s as [| p | p] eqn:Es; [cbn; lia | | lia].
    apply Z.shiftl_mul_pow2. lia. }
  destruct (Z.div_eucl m' (Zpos my)) as [q r] eqn:E.
  assert (Hq : q = m' / Zpos my) by (unfold Z.div; rewrite E; reflexivity).
  assert (H2s : 0 < 2 ^ s) by (apply Z.pow_pos_nonneg; lia).
  assert (Hq0 : 0 <= q) by (rewrite Hq; apply Z.div_pos; nia).
  split; [| unfold e'; lia].
  destruct (Z.eq_dec q 0) as [-> | Hqn]; [cbn [Zdigits2]; lia |].
  pose proof (digits2_pos_bounds mx) as [_ Hu]. fold d1 in Hu.
  pose proof (digits2_pos_bounds my) as [Hl _]. fold d2 in Hl.
  assert (Hd2 : 0 < d2) by (unfold d2; lia).
  assert (Hd1 : 0 < d1) by (unfold d1; lia).
  assert (Hp2 : 0 < 2 ^ (d2 - 1)) by (apply Z.pow_pos_nonneg; lia).
  assert (Hqm : q * Zpos my <= m').
  { rewrite Hq. rewrite Z.mul_comm. apply Z.mul_div_le. lia. }
  assert (Hm'u : m' < 2 ^ (d1 + s)).
  { rewrite Hm', Z.pow_add_r by lia. nia. }
  assert (Hlt : d2 - 1 < d1 + s).
  { apply (Z.pow_lt_mono_r_iff 2); [lia | lia | nia]. }
  assert (Hqu : q < 2 ^ (d1 + s - d2 + 1)).
  { assert (Hsplit : 2 ^ (d1 + s) = 2 ^ (d1 + s - d2 + 1) * 2 ^ (d2 - 1)).
    { rewrite <- Z.pow_add_r by lia. f_equal. lia. }
    assert (0 < 2 ^ (d1 + s - d2 + 1)) by (apply Z.pow_pos_nonneg; lia).
    nia. }
  assert (Zdigits2 q <= d1 + s - d2 + 1) by (apply Zdigits2_below; lia).
  unfold s in *. lia.
Qed.

Lemma SFdiv_finite x sy my ey kx k :
  valid_binary prec emax x = true ->
  finite_below kx x ->
  Z.max (Z.max (kx - (Zpos (digits2_pos my) + ey) + 1)
               (fexp prec emax kx - ey))
        (emin prec emax) + 1 <= k ->
  k <= emax ->
  finite_below k (SFdiv prec emax x (S754_finite sy my ey)).
Proof.
  intros Hv Hx Hk Hkmax.
  destruct x as [sx | sx | | sx mx ex]; try contradiction; [exact I |].
  cbn [SFdiv]. cbn [finite_below] in Hx.
  cbn [valid_binary] in Hv. unfold bounded in Hv.
  apply andb_true_iff in Hv. destruct Hv as [Hc _].
  unfold canonical_mantissa in Hc. apply Z.eqb_eq in Hc.
  pose proof (SFdiv_core_binary_fine prec emax mx ex my ey) as Hf.
  pose proof (SFdiv_core_binary_coarse mx ex my ey) as Hu.
  destruct (SFdiv_core_binary prec emax (Zpos mx) ex (Zpos my) ey)
    as [[q e] l].
  destruct Hf as [Hq He]. destruct Hu as [Hu1 Hu2].
  apply binary_round_aux_finite; try assumption.
  unfold fexp, emin in *. lia.
Qed.

End Magnitude.

Lemma Zdigits2_abs_below x k : 0 <= k -> Z.abs x < 2 ^ k -> Zdigits2 x <= k.
Proof.
  intros Hk Hx. destruct x as [| p | p].
  - cbn. lia.
  - apply Zdigits2_below; lia.
  - change (Zdigits2 (Zneg p)) with (Zdigits2 (Zpos p)).
    apply Zdigits2_below; lia.
Qed.

(** ** Exact conversions *)

Lemma binary_round_aux_exact prec emax sx mz ez :
  fexp prec emax (Zpos (digits2_pos mz) + ez) = ez ->
  ez <= emax - prec ->
  binary_round_aux prec emax sx (Zpos mz) ez loc_Exact = S754_finite sx mz ez.
Proof.
  intros Hc Hb. unfold binary_round_aux, shr_fexp. cbn [Zdigits2].
  rewrite Hc, Z.sub_diag.
  cbn [shr shr_record_of_loc loc_of_shr_record shr_m round_nearest_even Zdigits2].
  rewrite Hc, Z.sub_diag. cbn [shr shr_record_of_loc shr_m].
  apply Z.leb_le in Hb. rewrite Hb. reflexivity.
Qed.

Lemma iter_xO_pow mx d : Zpos (Pos.iter xO mx d) = Zpos mx * 2 ^ Zpos d.
Proof.
  induction d as [| d IH] using Pos.peano_ind.
  - cbn [Pos.iter]. change (2 ^ 1) with 2. lia.
  - rewrite Pos.iter_succ, Pos2Z.inj_succ, Z.pow_succ_r by lia.
    rewrite Pos2Z.inj_xO, IH. lia.
Qed.

(** An integer of at most [prec] bits converts without rounding. *)
Lemma binary_round_small prec emax sx mx :
  0 < prec -> prec < emax ->
  Zpos (digits2_pos mx) <= prec ->
  exists mz ez,
    binary_round prec emax sx mx 0 = S754_finite sx mz ez
    /\ ez <= 0 /\ Zpos mz = Zpos mx * 2 ^ (- ez).
Proof.
  intros Hp He Hd. unfold binary_round, shl_align.
  assert (Hf : fexp prec emax (Zpos (digits2_pos mx) + 0)
               = Zpos (digits2_pos mx) - prec).
  { unfold fexp, emin. lia. }
  rewrite Hf.
  destruct (Zpos (digits2_pos mx) - prec - 0) as [| d | d] eqn:E; try lia.
  - exists mx, 0. split; [| split; [lia | change (- 0) with 0; rewrite Z.pow_0_r; lia]].
    apply binary_round_aux_exact; [| lia]. unfold fexp, emin. lia.
  - exists (Pos.iter xO mx d), (Zpos (digits2_pos mx) - prec).
    split; [| split; [lia |]].
    + apply binary_round_aux_exact; [| lia].
      rewrite digits2_pos_iter_xO. unfold fexp, emin. lia.
    + rewrite iter_xO_pow. f_equal. f_equal. lia.
Qed.

Lemma float_value_scaled s mz ez (a : positive) :
  ez <= 0 -> Zpos mz = Zpos a * 2 ^ (- ez) ->
  (float_value (S754_finite s mz ez) == inject_Z (cond_Zopp s (Zpos a)))%Q.
Proof.
  intros He Hm. cbn [float_value].
  assert (Hpow : (Qpower 2 ez == / inject_Z (2 ^ (- ez)))%Q).
  { replace ez with (- - ez) at 1 by lia.
    rewrite Qpower_opp, Zpower_Qpower by lia. reflexivity. }
  assert (Hnz : ~ (inject_Z (2 ^ (- ez)) == 0)%Q).
  { assert (0 < 2 ^ (- ez)) by (apply Z.pow_pos_nonneg; lia).
    unfold Qeq. cbn. lia. }
  rewrite Hpow.
  assert (Hc : cond_Zopp s (Zpos mz) = cond_Zopp s (Zpos a) * 2 ^ (- ez)).
  { destruct s; cbn [cond_Zopp]; lia. }
  rewrite Hc, inject_Z_mult. field. exact Hnz.
Qed.

Lemma to_int64_range x : - 2 ^ 63 <= Int.to_int64 x < 2 ^ 63.
Proof. apply (signed_range 64 x); lia. Qed.

Lemma T_of_range t : -8388608 <= Spec.T_of t <= 8388607.
Proof.
  unfold Spec.T_of, Spec.asr.
  pose proof (to_int32_range (Spec.wrap32 (t * 5) + 128)) as H.
  rewrite to_int32_wrap in H.
  pose proof (Z.div_mod (Spec.wrap32 (Spec.wrap32 (t * 5) + 128)) (2 ^ 8)
                ltac:(lia)) as Hd.
  pose proof (Z.mod_pos_bound (Spec.wrap32 (Spec.wrap32 (t * 5) + 128)) (2 ^ 8)
                ltac:(lia)) as Hm.
  lia.
Qed.

(** The quotient of a 24-bit integer by 100 is a finite [float]. *)
Lemma temperature_value_finite T :
  -8388608 <= T <= 8388607 ->
  finite_below 20 (F32.div (F32.of_Z T) (F32.of_Z 100)).
Proof.
  intros HT.
  assert (E100 : F32.of_Z 100 = S754_finite false 13107200 (-17))
    by (vm_compute; reflexivity).
  rewrite E100. unfold F32.div, F32.of_Z, F32.prec, F32.emax.
  apply (SFdiv_finite 24 128) with (kx := 25); try lia.
  - apply binary_normalize_valid.
  - apply binary_normalize_finite; try lia.
    assert (Zdigits2 T <= 24) by (apply Zdigits2_abs_below; lia).
    unfold emin. lia.
  - vm_compute. intros C. discriminate C.
Qed.

(** The quotient of a 64-bit integer by 256.0, narrowed to [float], is a
    finite [float]. *)
Lemma pressure_value_finite p :
  - 2 ^ 63 <= p < 2 ^ 63 ->
  finite_below 59 (F64.to_f32 (F64.div (F64.of_Z p) (F64.of_Z 256))).
Proof.
  intros Hp.
  assert (E256 : F64.of_Z 256 = S754_finite false 4503599627370496 (-44))
    by (vm_compute; reflexivity).
  rewrite E256. unfold F64.div, F64.of_Z, F64.prec, F64.emax.
  assert (Hq : finite_below 58
                 (SFdiv 53 1024 (binary_normalize 53 1024 p 0 false)
                    (S754_finite false 4503599627370496 (-44)))).
  { apply (SFdiv_finite 53 1024) with (kx := 65); try lia.
    - apply binary_normalize_valid.
    - apply binary_normalize_finite; try lia.
      assert (Zdigits2 p <= 64) by (apply Zdigits2_abs_below; lia).
      unfold emin. lia.
    - vm_compute. intros C. discriminate C. }
  destruct (SFdiv 53 1024 (binary_normalize 53 1024 p 0 false)
              (S754_finite false 4503599627370496 (-44)))
    as [s | s | | s mq eq]; cbn [finite_below F64.to_f32] in *;
    try contradiction; [exact I |].
  unfold F32.prec, F32.emax.
  apply binary_normalize_finite; try lia.
  assert (Zdigits2 (cond_Zopp s (Zpos mq)) = Zpos (digits2_pos mq))
    by (destruct s; reflexivity).
  unfold emin. lia.
Qed.

Lemma decode_Pressure_finite m meas dig t_fine result :
  finite_below 59 (pressure result) ->
  exists r,
    decode_Pressure m meas dig t_fine result = Some r
    /\ finite_below 59 (pressure r)
    /\ temp r = temp result /\ humidity r = humidity result.
Proof.
  intros Hv. unfold decode_Pressure. cbv zeta.
  match goal with
  | |- context [negb (?v =? 0)] => destruct (v =? 0) eqn:E
  end; cbn [negb].
  - exists result. repeat split. exact Hv.
  - unfold Int.div64 at 1. rewrite E.
    eexists. split; [reflexivity |].
    cbn [set_pressure pressure temp humidity].
    split; [| split; reflexivity].
    apply pressure_value_finite. unfold Int.add64. apply to_int64_range.
Qed.

(** X7.  No member of a measurement is ever a NaN or an infinity: for
    every input [decode] returns a pressure that is zero or finite with
    magnitude below 2^59, a temperature that is zero or finite with
    magnitude below 2^20, and humidity +0.0. *)
Theorem decode_members_finite :
  forall (m : memory) (cal meas : ptr),
    exists r,
      decode m cal meas = Some r
      /\ finite_below 59 (pressure r)
      /\ finite_below 20 (temp r)
      /\ humidity r = S754_zero false.
Proof.
  intros m cal meas. rewrite decode_stages.
  match goal with
  | |- context [decode_Pressure ?a ?b ?c ?d ?e] =>
      destruct (decode_Pressure_finite a b c d e) as (r & Hr & Hp & Ht & Hh)
  end; [rewrite pressure_set_temp; exact I |].
  exists r. split; [exact Hr |]. split; [exact Hp |].
  rewrite Ht, Hh, temp_set_temp, humidity_set_temp.
  split; [apply temperature_value_finite, T_of_range | reflexivity].
Qed.

(** X8.  The integer [T] that the temperature block converts to [float]
    always fits in 24 bits, so the conversion never rounds: whatever
    [t_fine] is, [T = (t_fine * 5 + 128) >> 8] lies between -8388608 and
    8388607 and [(float)T] denotes exactly [T]. *)
Theorem temperature_conversion_exact :
  forall t_fine : Z,
    -8388608 <= Int.shr32 (Int.add32 (Int.mul32 t_fine 5) 128) 8 <= 8388607
    /\ (float_value
          (F32.of_Z (Int.shr32 (Int.add32 (Int.mul32 t_fine 5) 128) 8))
        == inject_Z (Int.shr32 (Int.add32 (Int.mul32 t_fine 5) 128) 8))%Q.
Proof.
  intros t_fine.
  set (T := Int.shr32 (Int.add32 (Int.mul32 t_fine 5) 128) 8).
  assert (HT : -8388608 <= T <= 8388607).
  { unfold T, Int.shr32, Int.add32.
    pose proof (to_int32_range (Int.mul32 t_fine 5 + 128)) as H.
    rewrite Z.shiftr_div_pow2 by lia.
    pose proof (Z.div_mod (Int.to_int32 (Int.mul32 t_fine 5 + 128)) (2 ^ 8)
                  ltac:(lia)) as Hd.
    pose proof (Z.mod_pos_bound (Int.to_int32 (Int.mul32 t_fine 5 + 128))
                  (2 ^ 8) ltac:(lia)) as Hm.
    lia. }
  split; [exact HT |]. clearbody T.
  unfold F32.of_Z, F32.prec, F32.emax.
  destruct T as [| p | p]; cbn [binary_normalize].
  - reflexivity.
  - assert (Hd : Zpos (digits2_pos p) <= 24).
    { change (Zpos (digits2_pos p)) with (Zdigits2 (Zpos p)).
      apply Zdigits2_abs_below; lia. }
    destruct (binary_round_small 24 128 false p ltac:(lia) ltac:(lia) Hd)
      as (mz & ez & E & He & Hm).
    rewrite E. apply (float_value_scaled false mz ez p He Hm).
  - assert (Hd : Zpos (digits2_pos p) <= 24).
    { change (Zpos (digits2_pos p)) with (Zdigits2 (Zneg p)).
      apply Zdigits2_abs_below; lia. }
    destruct (binary_round_small 24 128 true p ltac:(lia) ltac:(lia) Hd)
      as (mz & ez & E & He & Hm).
    rewrite E. apply (float_value_scaled true mz ez p He Hm).
Qed.

(** * Stage A against the exact formula *)

Lemma wrap32_small x : - 2 ^ 31 <= x < 2 ^ 31 -> Spec.wrap32 x = x.
Proof. intros H. rewrite <- to_int32_wrap. apply to_int32_small. exact H. Qed.

(** A product one wrap below the range comes back [2 ^ 32] higher. *)
Lemma wrap32_below x :
  - 2 ^ 31 - 2 ^ 32 <= x < - 2 ^ 31 -> Spec.wrap32 x = x + 2 ^ 32.
Proof.
  intros H. unfold Spec.wrap32, Spec.wrap.
  rewrite <- (Z.mod_unique (x + 2 ^ (32 - 1)) (2 ^ 32) (-1)
                (x + 2 ^ (32 - 1) + 2 ^ 32)); lia.
Qed.

Lemma div_bounds x c lo hi :
  0 < c -> lo * c <= x -> x < (hi + 1) * c -> lo <= x / c <= hi.
Proof.
  intros Hc Hlo Hhi.
  pose proof (Z.div_mod x c ltac:(lia)) as Hd.
  pose proof (Z.mod_pos_bound x c Hc) as Hm.
  split; nia.
Qed.




(** X10.  Outside such conditions the product of [var1] does leave the
    [int32_t] range: with T1 = 0, T2 = -32768, T3 = 0 and a sample of
    524296 or more, the exact product is below -2^31, and with the
    two's-complement wrap-around of that product the [t_fine] of the
    temperature block is the exact value plus 2097152. *)
Theorem stage_A_product_overflows :
  forall (m : memory) (cal meas : ptr),
    T1 (decodeCalibration m cal) = 0 ->
    T2 (decodeCalibration m cal) = -32768 ->
    T3 (decodeCalibration m cal) = 0 ->
    524296 <= decode20bit m (meas + 3) ->
    (decode20bit m (meas + 3) / 8 - 2 * 0) * -32768 < - 2 ^ 31
    /\ fst (decode_Temperature m meas (decodeCalibration m cal)
              Measurement_default)
       = Exact.t_fine 0 (-32768) 0 (decode20bit m (meas + 3)) + 2097152.
Proof.
  intros m cal meas H1 H2 H3 Hraw.
  pose proof (proj2 (decode20bit_sample20 m (meas + 3))) as Hr.
  assert (Ha : 65537 <= decode20bit m (meas + 3) / 8 <= 131071)
    by (apply div_bounds; lia).
  split; [lia |].
  rewrite decode_Temperature_of. cbn [fst].
  unfold t_fine_of. cbv zeta. rewrite H1, H2, H3.
  replace (load m meas 3) with (load m (meas + 3) 0)
    by (rewrite load_shift; reflexivity).
  replace (load m meas 4) with (load m (meas + 3) 1)
    by (rewrite load_shift; reflexivity).
  replace (load m meas 5) with (load m (meas + 3) 2)
    by (rewrite load_shift; reflexivity).
  rewrite <- (proj1 (decode20bit_sample20 m (meas + 3))).
  set (raw := decode20bit m (meas + 3)) in *.
  unfold Spec.t_fine, Spec.var1_A, Spec.var2_A, Spec.asr, Exact.t_fine.
  change (2 ^ 3) with 8. change (2 ^ 11) with 2048.
  change (2 ^ 14) with 16384.
  rewrite !Z.mul_0_r.
  replace (Spec.wrap32 (0 * 2)) with 0 by reflexivity.
  replace (Spec.wrap32 0) with 0 by reflexivity.
  change (0 / 16384) with 0.
  rewrite !Z.sub_0_r, !Z.add_0_r.
  rewrite (wrap32_small (raw / 8)) by lia.
  rewrite (wrap32_below (raw / 8 * -32768)) by lia.
  replace (raw / 8 * -32768 + 2 ^ 32)
    with (raw / 8 * -32768 + 2097152 * 2048) by lia.
  rewrite Z.div_add by lia.
  assert (Hv : -2097136 <= raw / 8 * -32768 / 2048 <= -1048592)
    by (apply div_bounds; lia).
  rewrite wrap32_small by lia. reflexivity.
Qed.

(** A calibration with T1 = 0, T2 = -32768, T3 = 0 and the sample
    0xFFFFF. *)
Lemma stage_A_product_overflows_witness :
  T1 (decodeCalibration
        (place 0 [x00; x00; x00; x80; x00; x00]%byte
           (place 103 [xff; xff; xf0]%byte zero_memory)) 0) = 0
  /\ fst (decode_Temperature
            (place 0 [x00; x00; x00; x80; x00; x00]%byte
               (place 103 [xff; xff; xf0]%byte zero_memory)) 100
            (decodeCalibration
               (place 0 [x00; x00; x00; x80; x00; x00]%byte
                  (place 103 [xff; xff; xf0]%byte zero_memory)) 0)
            Measurement_default)
     = Exact.t_fine 0 (-32768) 0
         (decode20bit
            (place 0 [x00; x00; x00; x80; x00; x00]%byte
               (place 103 [xff; xff; xf0]%byte zero_memory)) (100 + 3))
       + 2097152.
Proof.
  split; [vm_compute; reflexivity |].
  apply (stage_A_product_overflows
           (place 0 [x00; x00; x00; x80; x00; x00]%byte
              (place 103 [xff; xff; xf0]%byte zero_memory)) 0 100).
  - vm_compute. reflexivity.
  - vm_compute. reflexivity.
  - vm_compute. reflexivity.
  - vm_compute. intros C. discriminate C.
Defined.

(** * The temperature as a correctly rounded quotient *)

(** ** Where the exact result lies *)

Lemma located_floor m l N D :
  0 < D -> located m l N D -> m * D <= N < (m + 1) * D.
Proof. destruct l as [| []]; cbn [located]; nia. Qed.

Lemma loc_of_shr_record_of_loc m l :
  loc_of_shr_record (shr_record_of_loc m l) = l.
Proof. destruct l as [| []]; reflexivity. Qed.

Lemma shr_1_located r N D :
  0 <= shr_m r -> 0 < D ->
  located (shr_m r) (loc_of_shr_record r) N D ->
  located (shr_m (shr_1 r)) (loc_of_shr_record (shr_1 r)) N (2 * D).
Proof.
  destruct r as [m b s]. cbn [shr_m]. intros Hm HD H.
  destruct m as [| [p | p |] | p]; [| | | | lia].
  - destruct b, s; cbn [shr_1 orb shr_m loc_of_shr_record located] in *; lia.
  - rewrite (Pos2Z.inj_xI p) in H.
    destruct b, s; cbn [shr_1 orb shr_m loc_of_shr_record located] in *; nia.
  - rewrite (Pos2Z.inj_xO p) in H.
    destruct b, s; cbn [shr_1 orb shr_m loc_of_shr_record located] in *; nia.
  - destruct b, s; cbn [shr_1 orb shr_m loc_of_shr_record located] in *; lia.
Qed.

Lemma iter_shr_1_located n : forall r N D,
  0 <= shr_m r -> 0 < D ->
  located (shr_m r) (loc_of_shr_record r) N D ->
  located (shr_m (iter_pos shr_1 n r))
          (loc_of_shr_record (iter_pos shr_1 n r)) N (2 ^ Zpos n * D).
Proof.
  induction n as [n IH | n IH |]; intros r N D Hr HD H; cbn [iter_pos].
  - replace (2 ^ Zpos n~1 * D) with (2 ^ Zpos n * (2 ^ Zpos n * (2 * D))).
    + assert (Hpw : 0 < 2 ^ Zpos n) by (apply Z.pow_pos_nonneg; lia).
      destruct (shr_1_digits r Hr) as [H0 _].
      destruct (iter_shr_1_digits n _ H0) as [H1 _].
      apply IH; [exact H1 | nia |].
      apply IH; [exact H0 | lia |].
      apply shr_1_located; assumption.
    + replace (Zpos n~1) with (Zpos n + Zpos n + 1) by lia.
      rewrite !Z.pow_add_r by lia. change (2 ^ 1) with 2. ring.
  - replace (2 ^ Zpos n~0 * D) with (2 ^ Zpos n * (2 ^ Zpos n * D)).
    + assert (Hpw : 0 < 2 ^ Zpos n) by (apply Z.pow_pos_nonneg; lia).
      destruct (iter_shr_1_digits n _ Hr) as [H1 _].
      apply IH; [exact H1 | nia |].
      apply IH; assumption.
    + replace (Zpos n~0) with (Zpos n + Zpos n) by lia.
      rewrite !Z.pow_add_r by lia. ring.
  - change (2 ^ 1) with 2. apply shr_1_located; assumption.
Qed.

Lemma round_nearest_even_near m l N D :
  0 < D -> located m l N D ->
  2 * Z.abs (round_nearest_even m l * D - N) <= D.
Proof.
  intros HD H. destruct l as [| []]; cbn [round_nearest_even located] in *.
  - subst N. rewrite Z.sub_diag. cbn. lia.
  - destruct (Z.even m); nia.
  - nia.
  - nia.
Qed.

Lemma Zdigits2_carry m :
  0 < m -> Zdigits2 (m + 1) = Zdigits2 m + 1 -> m + 1 = 2 ^ Zdigits2 m.
Proof.
  intros Hm Hd.
  pose proof (Zdigits2_bounds m Hm) as [_ Hu].
  pose proof (Zdigits2_bounds (m + 1) ltac:(lia)) as [Hl _].
  rewrite Hd in Hl. replace (Zdigits2 m + 1 - 1) with (Zdigits2 m) in Hl by lia.
  lia.
Qed.

Section Nearest.

Variables prec emax : Z.
Hypothesis prec_pos : 0 < prec.

Lemma shr_fexp_located m e l N D :
  0 <= m -> 0 < D -> located m l N D ->
  located (shr_m (fst (shr_fexp prec emax m e l)))
          (loc_of_shr_record (fst (shr_fexp prec emax m e l))) N
          (2 ^ Z.max 0 (fexp prec emax (Zdigits2 m + e) - e) * D).
Proof.
  intros Hm HD H. unfold shr_fexp, shr. fold (fexp prec emax).
  destruct (fexp prec emax (Zdigits2 m + e) - e) as [| n | n]; cbn [fst].
  - rewrite shr_record_of_loc_m, loc_of_shr_record_of_loc.
    change (2 ^ Z.max 0 0) with 1. rewrite Z.mul_1_l. exact H.
  - replace (Z.max 0 (Zpos n)) with (Zpos n) by lia.
    apply iter_shr_1_located.
    + rewrite shr_record_of_loc_m. exact Hm.
    + exact HD.
    + rewrite shr_record_of_loc_m, loc_of_shr_record_of_loc. exact H.
  - rewrite shr_record_of_loc_m, loc_of_shr_record_of_loc.
    replace (Z.max 0 (Zneg n)) with 0 by lia.
    change (2 ^ 0) with 1. rewrite Z.mul_1_l. exact H.
Qed.

(** Rounding to nearest of a located quantity [N / D] (in units of
    [2 ^ ex]), in the normal range and below the overflow threshold: the
    result is finite, within half a unit in its last place of the exact
    quantity, and so within a relative error of [2 ^ - prec]. *)
Lemma binary_round_aux_nearest sx mx ex lx N D :
  0 < D -> 0 < mx -> located mx lx N D ->
  prec <= Zdigits2 mx ->
  emin prec emax <= Zdigits2 mx + ex - prec ->
  Zdigits2 mx + ex < emax ->
  exists m e,
    binary_round_aux prec emax sx mx ex lx = S754_finite sx m e
    /\ ex <= e
    /\ 2 * Z.abs (Zpos m * 2 ^ (e - ex) * D - N) <= 2 ^ (e - ex) * D
    /\ 2 ^ prec * Z.abs (Zpos m * 2 ^ (e - ex) * D - N) <= N.
Proof.
  intros HD Hmx Hloc Hg Hn Ho. unfold binary_round_aux.
  destruct (shr_fexp_digits prec emax mx ex lx ltac:(lia)) as (H1 & D1 & E1).
  pose proof (shr_fexp_located mx ex lx N D ltac:(lia) HD Hloc) as L1.
  destruct (shr_fexp prec emax mx ex lx) as [r1 e1].
  cbn [fst snd] in H1, D1, E1, L1.
  set (d1 := Z.max 0 (fexp prec emax (Zdigits2 mx + ex) - ex)) in *.
  assert (Hd1 : d1 = Zdigits2 mx - prec) by (unfold d1, fexp; lia).
  assert (Hg1 : Zdigits2 (shr_m r1) = prec) by lia.
  assert (Hm1 : 0 < shr_m r1).
  { destruct (Z.eq_dec (shr_m r1) 0) as [E0 | E0]; [| lia].
    rewrite E0 in Hg1. cbn in Hg1. lia. }
  assert (HP1 : 0 < 2 ^ d1) by (apply Z.pow_pos_nonneg; lia).
  set (D1' := 2 ^ d1 * D) in *.
  assert (HD1 : 0 < D1') by (unfold D1'; nia).
  pose proof (round_nearest_even_near _ _ _ _ HD1 L1) as Hnear.
  pose proof (located_floor _ _ _ _ HD1 L1) as [Hfl _].
  set (m2 := round_nearest_even (shr_m r1) (loc_of_shr_record r1)) in *.
  assert (Hm2 : m2 = shr_m r1 \/ m2 = shr_m r1 + 1)
    by apply round_nearest_even_cases.
  assert (Hg2 : Zdigits2 m2 = prec
                \/ (Zdigits2 m2 = prec + 1 /\ m2 = 2 ^ prec)).
  { destruct Hm2 as [C | C]; [left; rewrite C; exact Hg1 |].
    pose proof (Zdigits2_mono (shr_m r1) m2 ltac:(lia)) as Hlo.
    pose proof (Zdigits2_succ (shr_m r1) ltac:(lia)) as Hup.
    rewrite <- C in Hup.
    destruct (Z.eq_dec (Zdigits2 m2) prec) as [Ee | Ee]; [left; exact Ee |].
    right. split; [lia |].
    rewrite C, <- Hg1. apply Zdigits2_carry; [exact Hm1 |]. rewrite <- C. lia. }
  assert (H2 : 0 < m2) by lia.
  destruct (shr_fexp_digits prec emax m2 e1 loc_Exact ltac:(lia))
    as (H3 & D3 & E3).
  assert (Lex : located m2 loc_Exact m2 1) by (cbn; lia).
  pose proof (shr_fexp_located m2 e1 loc_Exact m2 1 ltac:(lia) ltac:(lia) Lex)
    as L3.
  destruct (shr_fexp prec emax m2 e1 loc_Exact) as [r2 e2].
  cbn [fst snd] in H3, D3, E3, L3.
  set (d2 := Z.max 0 (fexp prec emax (Zdigits2 m2 + e1) - e1)) in *.
  assert (HP2 : 0 < 2 ^ d2) by (apply Z.pow_pos_nonneg; lia).
  rewrite Z.mul_1_r in L3.
  pose proof (located_floor _ _ _ _ HP2 L3) as [Hf3 Hc3].
  assert (Hhalf : 2 ^ prec = 2 * 2 ^ (prec - 1)).
  { replace prec with (Z.succ (prec - 1)) at 1 by lia.
    apply Z.pow_succ_r. lia. }
  assert (Hlow : 2 ^ (prec - 1) <= shr_m r1).
  { pose proof (Zdigits2_bounds (shr_m r1) Hm1) as [Hl _].
    rewrite Hg1 in Hl. exact Hl. }
  assert (Hval : shr_m r2 * 2 ^ d2 = m2 /\ e2 <= emax - prec).
  { destruct Hg2 as [Ee | [Ee Ep]].
    - assert (d2 = 0) by (unfold d2, fexp in *; lia).
      replace d2 with 0 in * by lia. change (2 ^ 0) with 1 in *.
      split; [lia | unfold fexp in *; lia].
    - assert (d2 = 1) by (unfold d2, fexp in *; lia).
      replace d2 with 1 in * by lia. change (2 ^ 1) with 2 in *.
      split; [lia | unfold fexp in *; lia]. }
  destruct Hval as [Hval Hb].
  destruct (shr_m r2) as [| m3 | m3] eqn:M3; [lia | | lia].
  apply Z.leb_le in Hb. rewrite Hb.
  exists m3, e2. split; [reflexivity |].
  assert (Hee : e2 - ex = d2 + d1) by lia.
  split; [lia |].
  rewrite Hee, Z.pow_add_r by lia.
  replace (Zpos m3 * (2 ^ d2 * 2 ^ d1) * D) with (m2 * D1')
    by (unfold D1'; rewrite <- Hval; ring).
  split.
  - assert (D1' <= 2 ^ d2 * 2 ^ d1 * D) by (unfold D1'; nia). lia.
  - rewrite Hhalf.
    assert (2 ^ (prec - 1) * D1' <= N) by nia.
    assert (0 < 2 ^ (prec - 1)) by (apply Z.pow_pos_nonneg; lia).
    nia.
Qed.


Lemma new_location_located my r q :
  0 < my -> 0 <= r < my ->
  located q (new_location my r) (q * my + r) my.
Proof.
  intros Hmy Hr. unfold new_location.
  destruct (Z.even my) eqn:Ev.
  - unfold new_location_even.
    destruct (r =? 0) eqn:Er;
      [apply Z.eqb_eq in Er; cbn [located]; nia | apply Z.eqb_neq in Er].
    destruct (2 * r ?= my) eqn:C; cbn [located].
    + apply Z.compare_eq_iff in C. nia.
    + change (2 * r < my) in C. nia.
    + change (2 * r > my) in C. nia.
  - unfold new_location_odd.
    assert (Hodd : exists k, my = 2 * k + 1).
    { apply Z.odd_spec. rewrite <- Z.negb_even, Ev. reflexivity. }
    destruct Hodd as [k Hk].
    destruct (r =? 0) eqn:Er;
      [apply Z.eqb_eq in Er; cbn [located]; nia | apply Z.eqb_neq in Er].
    destruct (2 * r + 1 ?= my) eqn:C; cbn [located].
    + apply Z.compare_eq_iff in C. nia.
    + change (2 * r + 1 < my) in C. nia.
    + change (2 * r + 1 > my) in C. nia.
Qed.

(** The quotient computed by [SFdiv_core_binary], in the normal range. *)
Lemma SFdiv_core_binary_spec mx ex my ey :
  Zpos (digits2_pos mx) <= prec ->
  emin prec emax
  <= Zpos (digits2_pos mx) + ex - (Zpos (digits2_pos my) + ey) - prec ->
  let '(q, e, l) := SFdiv_core_binary prec emax (Zpos mx) ex (Zpos my) ey in
  e <= ex - ey
  /\ e = Zpos (digits2_pos mx) + ex - (Zpos (digits2_pos my) + ey) - prec
  /\ located q l (Zpos mx * 2 ^ (ex - ey - e)) (Zpos my)
  /\ 0 < q
  /\ prec <= Zdigits2 q <= prec + 1.
Proof.
  intros Hd1 Hn. unfold SFdiv_core_binary. cbn [Zdigits2].
  set (d1 := Zpos (digits2_pos mx)) in *.
  set (d2 := Zpos (digits2_pos my)) in *.
  set (e' := Z.min (fexp prec emax (d1 + ex - (d2 + ey))) (ex - ey)).
  assert (Hd2 : 0 < d2) by (unfold d2; lia).
  assert (He' : e' = d1 + ex - (d2 + ey) - prec)
    by (unfold e', fexp; lia).
  set (s := ex - ey - e').
  assert (Hs : s = prec - d1 + d2) by (unfold s; lia).
  set (m' := match s with
             | 0 => Zpos mx
             | Zpos _ => Z.shiftl (Zpos mx) s
             | Zneg _ => 0
             end).
  assert (Hm' : m' = Zpos mx * 2 ^ s).
  { unfold m'. destruct s as [| p | p] eqn:Es; [cbn; lia | | lia].
    apply Z.shiftl_mul_pow2. lia. }
  pose proof (Z_div_mod m' (Zpos my) ltac:(lia)) as Hdm.
  destruct (Z.div_eucl m' (Zpos my)) as [q r].
  destruct Hdm as [Hq Hr].
  split; [lia |]. split; [exact He' |].
  split.
  - replace (Zpos mx * 2 ^ (ex - ey - e')) with m'
      by (rewrite Hm'; reflexivity).
    rewrite Hq, Z.mul_comm. apply new_location_located; lia.
  - pose proof (digits2_pos_bounds mx) as [Hl1 Hu1]. fold d1 in Hl1, Hu1.
    pose proof (digits2_pos_bounds my) as [Hl2 Hu2]. fold d2 in Hl2, Hu2.
    assert (H2s : 0 < 2 ^ s) by (apply Z.pow_pos_nonneg; lia).
    assert (Hp2 : 0 < 2 ^ (d2 - 1)) by (apply Z.pow_pos_nonneg; lia).
    assert (Hpp : 0 < 2 ^ (prec - 1)) by (apply Z.pow_pos_nonneg; lia).
    assert (Hlo : 2 ^ (prec - 1) * 2 ^ d2 = 2 ^ (d1 - 1) * 2 ^ s).
    { rewrite <- !Z.pow_add_r by lia. f_equal. lia. }
    assert (Hhi : 2 ^ (prec + 1) * 2 ^ (d2 - 1) = 2 ^ d1 * 2 ^ s).
    { rewrite <- !Z.pow_add_r by lia. f_equal. lia. }
    assert (Hq0 : 2 ^ (prec - 1) <= q).
    { assert (2 ^ (prec - 1) * Zpos my < (q + 1) * Zpos my); nia. }
    assert (Hq1 : q < 2 ^ (prec + 1)).
    { assert (0 < 2 ^ (prec + 1)) by (apply Z.pow_pos_nonneg; lia).
      assert (q * Zpos my < 2 ^ (prec + 1) * Zpos my); nia. }
    split; [lia |]. split.
    + assert (prec - 1 < Zdigits2 q); [| lia].
      apply Zdigits2_above; lia.
    + apply Zdigits2_below; lia.
Qed.

(** Division in the normal range returns a finite number within half a
    unit in the last place of the exact quotient, hence within a relative
    error of [2 ^ - prec]. *)
Lemma SFdiv_nearest sx mx ex sy my ey :
  valid_binary prec emax (S754_finite sx mx ex) = true ->
  emin prec emax
  <= Zpos (digits2_pos mx) + ex - (Zpos (digits2_pos my) + ey) - prec ->
  Zpos (digits2_pos mx) + ex - (Zpos (digits2_pos my) + ey) + 1 < emax ->
  exists m e e',
    SFdiv prec emax (S754_finite sx mx ex) (S754_finite sy my ey)
    = S754_finite (xorb sx sy) m e
    /\ e' <= e /\ e' <= ex - ey
    /\ 2 * Z.abs (Zpos m * 2 ^ (e - e') * Zpos my
                  - Zpos mx * 2 ^ (ex - ey - e'))
       <= 2 ^ (e - e') * Zpos my
    /\ 2 ^ prec * Z.abs (Zpos m * 2 ^ (e - e') * Zpos my
                         - Zpos mx * 2 ^ (ex - ey - e'))
       <= Zpos mx * 2 ^ (ex - ey - e').
Proof.
  intros Hv Hn Ho.
  cbn [valid_binary] in Hv. unfold bounded in Hv.
  apply andb_true_iff in Hv. destruct Hv as [Hc _].
  unfold canonical_mantissa in Hc. apply Z.eqb_eq in Hc.
  assert (Hd1 : Zpos (digits2_pos mx) <= prec) by (unfold fexp in Hc; lia).
  cbn [SFdiv].
  pose proof (SFdiv_core_binary_spec mx ex my ey Hd1 Hn) as Hs.
  destruct (SFdiv_core_binary prec emax (Zpos mx) ex (Zpos my) ey)
    as [[q e'] l].
  destruct Hs as (He1 & He2 & Hloc & Hq0 & Hq).
  destruct (binary_round_aux_nearest (xorb sx sy) q e' l
              (Zpos mx * 2 ^ (ex - ey - e')) (Zpos my))
    as (m & e & E & Hee & Hhalf & Hrel); try lia; try exact Hloc.
  exists m, e, e'. repeat split; assumption.
Qed.

End Nearest.

(** The conversion of a non-zero integer of at most 24 bits. *)
Lemma binary32_of_Z_exact T :
  -8388608 <= T <= 8388607 -> T <> 0 ->
  exists mz ez,
    binary_normalize 24 128 T 0 false = S754_finite (T <? 0) mz ez
    /\ ez <= 0 /\ Zpos mz = Z.abs T * 2 ^ (- ez).
Proof.
  intros HT Hnz.
  destruct T as [| p | p]; [lia | |]; cbn [binary_normalize].
  - assert (Hd : Zpos (digits2_pos p) <= 24).
    { change (Zpos (digits2_pos p)) with (Zdigits2 (Zpos p)).
      apply Zdigits2_abs_below; lia. }
    destruct (binary_round_small 24 128 false p ltac:(lia) ltac:(lia) Hd)
      as (mz & ez & E & He & Hm).
    exists mz, ez. split; [exact E |]. split; [exact He | exact Hm].
  - assert (Hd : Zpos (digits2_pos p) <= 24).
    { change (Zpos (digits2_pos p)) with (Zdigits2 (Zneg p)).
      apply Zdigits2_abs_below; lia. }
    destruct (binary_round_small 24 128 true p ltac:(lia) ltac:(lia) Hd)
      as (mz & ez & E & He & Hm).
    exists mz, ez. split; [exact E |]. split; [exact He | exact Hm].
Qed.

(** The [float] quotient of a non-zero 24-bit integer [T] by 100 is a
    finite number [m * 2 ^ e] of the sign of [T], within half a unit in the
    last place of [|T| / 100], hence within a relative error of 2^-24. *)
Lemma binary32_quotient_nearest T :
  -8388608 <= T <= 8388607 -> T <> 0 ->
  exists m e,
    SFdiv 24 128 (binary_normalize 24 128 T 0 false)
      (binary_normalize 24 128 100 0 false)
    = S754_finite (T <? 0) m e
    /\ e <= 0
    /\ 2 * Z.abs (100 * Zpos m - Z.abs T * 2 ^ (- e)) <= 100
    /\ 2 ^ 24 * Z.abs (100 * Zpos m - Z.abs T * 2 ^ (- e))
       <= Z.abs T * 2 ^ (- e).
Proof.
  intros HT Hnz.
  pose proof (temperature_value_finite T HT) as Hfin.
  unfold F32.div, F32.of_Z, F32.prec, F32.emax in Hfin.
  pose proof (SFdiv_valid 24 128 (binary_normalize 24 128 T 0 false)
                (binary_normalize 24 128 100 0 false)) as Hval.
  pose proof (binary_normalize_valid 24 128 T 0 false) as Hvx.
  destruct (binary32_of_Z_exact T HT Hnz) as (mz & ez & Ex & Hez & Hmz).
  assert (E100 : binary_normalize 24 128 100 0 false
                 = S754_finite false 13107200 (-17))
    by (vm_compute; reflexivity).
  rewrite Ex in Hvx. rewrite Ex, E100 in Hfin, Hval |- *.
  assert (Hd100 : Zpos (digits2_pos 13107200) = 24) by reflexivity.
  assert (Hk1 : 1 <= Zpos (digits2_pos mz) + ez).
  { assert (- ez < Zdigits2 (Zpos mz)); [| cbn [Zdigits2] in *; lia].
    apply Zdigits2_above; [lia |]. rewrite Hmz.
    assert (0 < 2 ^ (- ez)) by (apply Z.pow_pos_nonneg; lia). nia. }
  assert (Hk2 : Zpos (digits2_pos mz) <= 24).
  { cbn [valid_binary] in Hvx. unfold bounded in Hvx.
    apply andb_true_iff in Hvx. destruct Hvx as [Hc _].
    unfold canonical_mantissa in Hc. apply Z.eqb_eq in Hc.
    unfold fexp in Hc. lia. }
  destruct (SFdiv_nearest 24 128 ltac:(lia) (T <? 0) mz ez false 13107200 (-17)
              Hvx)
    as (m & e & e' & E & Hee & He' & Hhalf & Hrel).
  { rewrite Hd100. unfold emin. lia. }
  { rewrite Hd100. lia. }
  rewrite xorb_false_r in E. rewrite E in Hfin, Hval |- *.
  exists m, e. split; [reflexivity |].
  assert (He0 : e <= 0).
  { cbn [finite_below] in Hfin. cbn [valid_binary] in Hval.
    unfold bounded in Hval. apply andb_true_iff in Hval.
    destruct Hval as [Hc _]. unfold canonical_mantissa in Hc.
    apply Z.eqb_eq in Hc. unfold fexp, emin in Hc. lia. }
  split; [exact He0 |].
  set (A := e - e' + 17).
  assert (HA : 0 < 2 ^ A) by (apply Z.pow_pos_nonneg; unfold A; lia).
  assert (HE : 0 < 2 ^ (- e)) by (apply Z.pow_pos_nonneg; lia).
  assert (Elhs : Zpos m * 2 ^ (e - e') * 13107200 = 100 * Zpos m * 2 ^ A).
  { unfold A. rewrite Z.pow_add_r by lia.
    change (2 ^ 17) with 131072. lia. }
  assert (Erhs : Zpos mz * 2 ^ (ez - -17 - e') = Z.abs T * 2 ^ (- e) * 2 ^ A).
  { rewrite Hmz, <- !Z.mul_assoc, <- !Z.pow_add_r by (unfold A; lia).
    f_equal. f_equal. unfold A. lia. }
  assert (Escale : 2 ^ (e - e') * 13107200 = 100 * 2 ^ A).
  { unfold A. rewrite Z.pow_add_r by lia.
    change (2 ^ 17) with 131072. lia. }
  rewrite Elhs, Erhs in Hhalf, Hrel. rewrite Escale in Hhalf.
  replace (100 * Zpos m * 2 ^ A - Z.abs T * 2 ^ (- e) * 2 ^ A)
    with ((100 * Zpos m - Z.abs T * 2 ^ (- e)) * 2 ^ A) in Hhalf, Hrel by ring.
  rewrite Z.abs_mul, (Z.abs_eq (2 ^ A)) in Hhalf, Hrel by lia.
  set (err := Z.abs (100 * Zpos m - Z.abs T * 2 ^ (- e))) in *.
  split.
  - apply (Z.mul_le_mono_pos_r _ _ (2 ^ A) HA). lia.
  - apply (Z.mul_le_mono_pos_r _ _ (2 ^ A) HA). lia.
Qed.

Lemma Qpower_2_nonpos e pp :
  e <= 0 -> 2 ^ (- e) = Zpos pp -> (Qpower 2 e == 1 # pp)%Q.
Proof.
  intros He Hp. replace e with (- - e) by lia.
  rewrite Qpower_opp. change 2%Q with (inject_Z 2).
  rewrite <- Zpower_Qpower by lia. rewrite Hp. reflexivity.
Qed.

(** The same bounds on the value of the quotient, over the rationals:
    [100 * v] is within 50 units in the last place of [T], and within
    [|T| * 2^-24] of it. *)
Lemma binary32_quotient_rounded T :
  -8388608 <= T <= 8388607 ->
  (Qabs (float_value (SFdiv 24 128 (binary_normalize 24 128 T 0 false)
                  (binary_normalize 24 128 100 0 false)) * 100 - inject_Z T)
   * 2 <= 100 * float_ulp (SFdiv 24 128 (binary_normalize 24 128 T 0 false)
                  (binary_normalize 24 128 100 0 false)))%Q
  /\ (Qabs (float_value (SFdiv 24 128 (binary_normalize 24 128 T 0 false)
                  (binary_normalize 24 128 100 0 false)) * 100
            - inject_Z T)
      * inject_Z (2 ^ 24) <= Qabs (inject_Z T))%Q.
Proof.
  intros HT.
  destruct (Z.eq_dec T 0) as [-> | Hnz].
  - split; vm_compute; intros C; discriminate C.
  - destruct (binary32_quotient_nearest T HT Hnz)
      as (m & e & E & He & Hhalf & Hrel).
    rewrite E. cbn [float_value float_ulp].
    assert (HP : 0 < 2 ^ (- e)) by (apply Z.pow_pos_nonneg; lia).
    destruct (2 ^ (- e)) as [| pp | pp] eqn:EP; try lia.
    rewrite (Qpower_2_nonpos e pp He EP).
    split.
    + unfold Qle, Qabs, Qminus, Qplus, Qmult, Qopp, inject_Z.
      cbn [Qnum Qden]. rewrite ?Pos.mul_1_l, ?Pos.mul_1_r, ?Z.mul_1_r.
      destruct (T <? 0) eqn:S;
        [apply Z.ltb_lt in S | apply Z.ltb_ge in S]; cbn [cond_Zopp].
      * rewrite (Z.abs_neq T) in Hhalf by lia.
        replace (- Zpos m * 100 + - T * Zpos pp)
          with (- (100 * Zpos m - - T * Zpos pp)) by ring.
        rewrite Z.abs_opp. nia.
      * rewrite (Z.abs_eq T) in Hhalf by lia.
        replace (Zpos m * 100 + - T * Zpos pp)
          with (100 * Zpos m - T * Zpos pp) by ring.
        nia.
    + unfold Qle, Qabs, Qminus, Qplus, Qmult, Qopp, inject_Z.
      cbn [Qnum Qden]. rewrite ?Pos.mul_1_l, ?Pos.mul_1_r, ?Z.mul_1_r.
      destruct (T <? 0) eqn:S;
        [apply Z.ltb_lt in S | apply Z.ltb_ge in S]; cbn [cond_Zopp].
      * replace (- Zpos m * 100 + - T * Zpos pp)
          with (- (100 * Zpos m - Z.abs T * Zpos pp))
          by (rewrite (Z.abs_neq T) by lia; ring).
        rewrite Z.abs_opp. lia.
      * replace (Zpos m * 100 + - T * Zpos pp)
          with (100 * Zpos m - Z.abs T * Zpos pp)
          by (rewrite (Z.abs_eq T) by lia; ring).
        lia.
Qed.

(** C2.  Stage A of [decode], for every memory and every pair of pointers:
    [temp_raw] is the 20-bit sample of measurement bytes 3..5; [var1],
    [var2], [t_fine] and [T] are the formulas of the specification in
    wrapping 32-bit signed arithmetic with flooring right shifts; the
    pressure block runs on that same [t_fine]; and the temperature of the
    result is [T / 100]: it is the [float] quotient of [T] by 100, a
    binary32 number whose value [v] satisfies |100 v - T| <= 50 ulp(v)
    (half a unit in the last place of [T / 100]) and
    |100 v - T| <= |T| * 2^-24. *)
Theorem decode_stage_A :
  forall (m : memory) (cal meas : ptr),
    decode20bit m (meas + 3)
    = Spec.sample20 (load m meas 3) (load m meas 4) (load m meas 5)
    /\ decode m cal meas
       = decode_Pressure m meas (decodeCalibration m cal)
           (t_fine_of m cal meas)
           (set_temp Measurement_default
              (F32.div (F32.of_Z (Spec.T_of (t_fine_of m cal meas)))
                       (F32.of_Z 100)))
    /\ exists r,
         decode m cal meas = Some r
         /\ temp r = F32.div (F32.of_Z (Spec.T_of (t_fine_of m cal meas)))
                             (F32.of_Z 100)
         /\ valid_binary 24 128 (temp r) = true
         /\ (Qabs (float_value (temp r) * 100
                   - inject_Z (Spec.T_of (t_fine_of m cal meas)))
             * 2 <= 100 * float_ulp (temp r))%Q
         /\ (Qabs (float_value (temp r) * 100
                   - inject_Z (Spec.T_of (t_fine_of m cal meas)))
             * inject_Z (2 ^ 24)
             <= Qabs (inject_Z (Spec.T_of (t_fine_of m cal meas))))%Q.
Proof.
  intros m cal meas.
  pose proof (decode_stages m cal meas) as E.
  split; [| split; [exact E |]].
  - rewrite (proj1 (decode20bit_sample20 m (meas + 3))), !load_shift.
    reflexivity.
  - destruct (decode_temp m cal meas) as (r & Hr & Ht).
    exists r. split; [exact Hr |]. split; [exact Ht |].
    rewrite Ht. unfold F32.div, F32.of_Z, F32.prec, F32.emax.
    split; [apply SFdiv_valid |].
    apply binary32_quotient_rounded, T_of_range.
Qed.

(** C4.  [decode] on the two embedded arrays: the Stage A integer [T] of
    the sample is 2345 and the temperature is [T / 100], that is the
    [float] quotient of 2345 by 100, the binary32 number 12294554 * 2^-19,
    within half a unit in the last place of 2345 / 100; the divisor [var1]
    is not 0 and the pressure is the non-zero number 12725014 * 2^-7; the
    humidity is +0.0.  For every input the humidity of the result is
    +0.0. *)
Theorem decode_end_to_end :
  (exists r,
      decode static_memory calibration_ptr measurement_ptr = Some r
      /\ Spec.T_of (t_fine_of static_memory calibration_ptr measurement_ptr)
         = 2345
      /\ temp r = F32.div (F32.of_Z 2345) (F32.of_Z 100)
      /\ temp r = S754_finite false 12294554 (-19)
      /\ valid_binary 24 128 (temp r) = true
      /\ (float_value (temp r) == 12294554 # 524288)%Q
      /\ (Qabs (float_value (temp r) * 100 - 2345) * 2
          <= 100 * float_ulp (temp r))%Q
      /\ pressure_divisor static_memory calibration_ptr measurement_ptr <> 0
      /\ pressure r = S754_finite false 12725014 (-7)
      /\ SFeqb (pressure r) (S754_zero false) = false
      /\ humidity r = S754_zero false)
  /\ (forall (m : memory) (cal meas : ptr),
        exists r, decode m cal meas = Some r /\ humidity r = S754_zero false).
Proof.
  split; [| exact decode_humidity].
  eexists. split; [vm_compute; reflexivity |].
  split; [vm_compute; reflexivity |].
  split; [vm_compute; reflexivity |].
  split; [vm_compute; reflexivity |].
  split; [vm_compute; reflexivity |].
  split; [vm_compute; reflexivity |].
  split; [vm_compute; intros C; discriminate C |].
  split; [vm_compute; discriminate |].
  split; [vm_compute; reflexivity |].
  split; vm_compute; reflexivity.
Qed.
